(** * bump.cpp: the AABB collision kernel, its grid and its responses

    A shallow embedding of [bump/bump.cpp] and [bump/bump.h].

    Modelling conventions.
    - [Number] (C++ [double]) is modelled by the exact rationals [Q]:
      the comparisons, [std::abs], [std::min] and the four arithmetic
      operations are the exact ones.  Rounding, NaN and the infinities
      of IEEE arithmetic are outside this model.  Equality of numbers in
      statements is [Qeq] (written [==]).  The statements made on this
      model rest on the comparisons and the control flow of the code,
      or give a formula as the code writes it, which the doubles follow
      up to the rounding of each operation.
    - Where the answer depends on the rounding of a sum or a difference
      (the margin test of [containsPoint] on [getDiff], the distances
      compared by [Aux::nearest]) the functions are transcribed a second
      time, in module [Double], over the binary64 numbers of
      [PrimFloat], whose operations round as the machine's do.
    - A C++ exception is an explicit [Throw] result; every function that
      can raise returns a [Result].
    - [Item] ([void*]) is an address, [0] being [nullptr].
    - A [Cell*] key of [nonEmptyCells] is modelled by the position
      [(iy, ix)] of the cell inside [rows]. *)

From Stdlib Require Import QArith Qabs Qminmax Qround Lqa Lia ZArith List Bool.
From Stdlib Require PrimFloat SpecFloat FloatOps FloatAxioms.
From stdpp Require Import gmap list strings.

Open Scope Q_scope.

(** ** Types, constants and exceptions ([bump.h]) *)

Abbreviation Number := Q (only parsing).
Abbreviation Index := Z (only parsing).
Abbreviation Item := N (only parsing).

Definition nullptr : Item := 0%N.

(** [deltaError = 1e-10]: the double nearest to 1/10^10, which is
    7737125245533627 * 2^-86. *)
Definition deltaError : Number :=
  7737125245533627 # 77371252455336267181195264.

(** [std::numeric_limits<double>::max()], the largest finite double. *)
Definition Number_max : Number := inject_Z (2 ^ 1024 - 2 ^ 971).

Inductive Exception : Type :=
| ComputationError
| NotFoundError.

Inductive Result (A : Type) : Type :=
| Ok (a : A)
| Throw (e : Exception).

Arguments Ok {A} a.
Arguments Throw {A} e.

(** Sequencing: a [Throw] leaves the function at once. *)
#[global] Instance Result_bind : MBind Result := fun A B k m =>
  match m with
  | Ok a => k a
  | Throw e => Throw e
  end.

#[global] Instance Result_ret : MRet Result := fun A a => Ok a.

(** The comparison operators of C++ on numbers, as booleans. *)
Definition Qeqb (a b : Number) : bool := Qeq_bool a b.
Definition Qleb (a b : Number) : bool := Qle_bool a b.
Definition Qltb (a b : Number) : bool := negb (Qle_bool b a).

(** [struct Point] and [struct Rectangle]; the fields [x], [y], [w], [h]
    carry the name of their structure. *)
Record Point : Type := mkPoint { pt_x : Number; pt_y : Number }.

Record Rectangle : Type := mkRectangle {
  rect_x : Number; rect_y : Number; rect_w : Number; rect_h : Number
}.

Record Collision : Type := mkCollision {
  move : Point;
  normal : Point;
  touch : Point;
  itemRect : Rectangle;
  otherRect : Rectangle;
  overlaps : bool;
  ti : Number;
  item : Item;
  other : Item;
  slide : Point;
  bounce : Point
}.

Record Cell : Type := mkCell {
  itemCount : Number;
  cellX : Number;
  cellY : Number;
  items : list Item
}.

(** A value-initialised [Cell], as [std::vector::resize] creates it. *)
Definition Cell_default : Cell := mkCell 0 0 0 [].

(** [col.slide = p] and [col.bounce = p]: assignment to one field. *)
Definition setSlide (col : Collision) (p : Point) : Collision :=
  mkCollision (move col) (normal col) (touch col) (itemRect col)
    (otherRect col) (overlaps col) (ti col) (item col) (other col)
    p (bounce col).

Definition setBounce (col : Collision) (p : Point) : Collision :=
  mkCollision (move col) (normal col) (touch col) (itemRect col)
    (otherRect col) (overlaps col) (ti col) (item col) (other col)
    (slide col) p.

Definition Filter : Type := Item -> Item -> bool.
Definition Collisions : Type := (list Collision * N)%type.
Definition Response : Type := (Number * Number * list Collision * N)%type.

(** ** Auxiliary functions *)

Module Aux.

Definition sign (value : Number) : Number :=
  if Qltb 0 value then 1
  else if Qltb value 0 then -1
  else 0.

Definition nearest (value first second : Number) : Number :=
  if Qltb (Qabs (first - value)) (Qabs (second - value)) then first else second.

End Aux.

(** ** Rectangle functions *)

Module Rect.

Definition getNearestCorner (x y w h px py : Number) : Number * Number :=
  let nearestX := Aux.nearest px x (x + w) in
  let nearestY := Aux.nearest py y (y + h) in
  (nearestX, nearestY).

(** The four values of the loop counter [side] (1, 2, 3, 4). *)
Inductive Side : Type := SLeft | SRight | STop | SBottom.

Definition allSides : list Side := [SLeft; SRight; STop; SBottom].

(** The [switch] of the loop body: [(nx, ny, p, q)] of a side. *)
Definition sideCoefficients (x y w h x1 y1 dx dy : Number) (side : Side)
  : Number * Number * Number * Number :=
  match side with
  | SLeft => (-1, 0, - dx, x1 - x)
  | SRight => (1, 0, dx, x + w - x1)
  | STop => (0, -1, - dy, y1 - y)
  | SBottom => (0, 1, dy, y + h - y1)
  end.

(** The mutable locals of the loop that reach the result. *)
Record ClipState : Type := mkClip {
  ti1 : Number; ti2 : Number;
  nx1 : Number; ny1 : Number;
  nx2 : Number; ny2 : Number
}.

(** The part of the loop body after the [switch]. *)
Definition clipSide (nx ny p q : Number) (s : ClipState) : Result ClipState :=
  if Qeqb p 0 then
    if Qleb q 0 then Throw ComputationError else Ok s
  else
    let r := q / p in
    if Qltb p 0 then
      if Qltb (ti2 s) r then Throw ComputationError
      else if Qltb (ti1 s) r
           then Ok (mkClip r (ti2 s) nx ny (nx2 s) (ny2 s))
           else Ok s
    else
      if Qltb r (ti1 s) then Throw ComputationError
      else if Qltb r (ti2 s)
           then Ok (mkClip (ti1 s) r (nx1 s) (ny1 s) nx ny)
           else Ok s.

Fixpoint clipSides (x y w h x1 y1 dx dy : Number) (sides : list Side)
  (s : ClipState) : Result ClipState :=
  match sides with
  | [] => Ok s
  | side :: rest =>
      let '(nx, ny, p, q) := sideCoefficients x y w h x1 y1 dx dy side in
      s' ← clipSide nx ny p q s;
      clipSides x y w h x1 y1 dx dy rest s'
  end.

Definition getSegmentIntersectionIndices
  (x y w h x1 y1 x2 y2 ti1 ti2 : Number)
  : Result (Number * Number * Number * Number * Number * Number) :=
  let dx := x2 - x1 in
  let dy := y2 - y1 in
  s ← clipSides x y w h x1 y1 dx dy allSides (mkClip ti1 ti2 0 0 0 0);
  Ok (Rect.ti1 s, Rect.ti2 s, nx1 s, ny1 s, nx2 s, ny2 s).

Definition getDiff (x1 y1 w1 h1 x2 y2 w2 h2 : Number)
  : Number * Number * Number * Number :=
  (x2 - x1 - w1, y2 - y1 - h1, w1 + w2, h1 + h2).

Definition containsPoint (x y w h px py : Number) : bool :=
  Qltb deltaError (px - x) && Qltb deltaError (py - y) &&
  Qltb deltaError (x + w - px) && Qltb deltaError (y + h - py).

Definition isIntersecting (x1 y1 w1 h1 x2 y2 w2 h2 : Number) : bool :=
  Qltb x1 (x2 + w2) && Qltb x2 (x1 + w1) &&
  Qltb y1 (y2 + h2) && Qltb y2 (y1 + h1).

Definition getSquareDistance (x1 y1 w1 h1 x2 y2 w2 h2 : Number) : Number :=
  let dx := x1 - x2 + (w1 - w2) / 2 in
  let dy := y1 - y2 + (h1 - h2) / 2 in
  dx * dx + dy * dy.

Definition detectCollision (x1 y1 w1 h1 x2 y2 w2 h2 goalX goalY : Number)
  : Result Collision :=
  let dx := goalX - x1 in
  let dy := goalY - y1 in
  let '(x, y, w, h) := getDiff x1 y1 w1 h1 x2 y2 w2 h2 in
  (* overlaps = false; ti = 0; nx = 0; ny = 0 *)
  '(overlaps, ti, nx, ny) ←
    (if containsPoint x y w h 0 0 then
       let '(px, py) := getNearestCorner x y w h 0 0 in
       let wi := Qmin w1 (Qabs px) in
       let hi := Qmin h1 (Qabs py) in
       Ok (true, - wi * hi, 0, 0)
     else
       '(ti1, ti2, nx1, ny1, nx2, ny2) ←
         getSegmentIntersectionIndices x y w h 0 0 dx dy
           (- Number_max) Number_max;
       (* the guard reads [ti], which still holds its initial 0 *)
       if Qltb 0 1 &&
          Qleb deltaError (Qabs (ti1 - ti2)) &&
          (Qltb 0 (ti1 + deltaError) || (Qeqb ti1 0 && Qltb 0 ti2))
       then Ok (false, ti1, nx1, ny1)
       else Ok (false, 0, 0, 0));
  '(nx, ny, tx, ty) ←
    (if overlaps : bool then
       if Qeqb dx 0 && Qeqb dy 0 then
         let '(px, py) := getNearestCorner x y w h 0 0 in
         let '(px, py) :=
           if Qltb (Qabs px) (Qabs py) then (px, 0) else (0, py) in
         Ok (Aux.sign px, Aux.sign py, x1 + px, y1 + py)
       else
         '(ti1, _, nx, ny, _, _) ←
           getSegmentIntersectionIndices x y w h 0 0 dx dy
             (- Number_max) 1;
         Ok (nx, ny, x1 + dx * ti1, y1 + dy * ti1)
     else
       Ok (nx, ny, x1 + dx * ti, y1 + dy * ti));
  Ok (mkCollision
        (mkPoint dx dy) (mkPoint nx ny) (mkPoint tx ty)
        (mkRectangle x1 y1 w1 h1)
        (mkRectangle x2 y2 w2 h2)
        overlaps ti
        nullptr nullptr
        (mkPoint 0 0) (mkPoint 0 0)).

(** The overload without a goal: the goal is the mover's own position. *)
Definition detectCollision_static (x1 y1 w1 h1 x2 y2 w2 h2 : Number)
  : Result Collision :=
  detectCollision x1 y1 w1 h1 x2 y2 w2 h2 x1 y1.

End Rect.

(** ** Grid functions *)

Module Grid.

Definition toWorld (cellSize cx cy : Number) : Number * Number :=
  ((cx - 1) * cellSize, (cy - 1) * cellSize).

(** [static_cast<Number>] of a [Number] is the identity conversion. *)
Definition toCell (cellSize x y : Number) : Number * Number :=
  (x / cellSize + 1, y / cellSize + 1).

Definition traverseInitStep (cellSize ct t1 t2 : Number)
  : Number * Number * Number :=
  let v := t2 - t1 in
  if Qltb 0 v then (1, cellSize / v, ((ct + v) * cellSize - t1) / v)
  else if Qltb v 0
       then (-1, - cellSize / v, ((ct + v - 1) * cellSize - t1) / v)
       else (0, Number_max, Number_max).

Definition toCellRect (cellSize x y w h : Number)
  : Number * Number * Number * Number :=
  let '(cx, cy) := toCell cellSize x y in
  let cr := inject_Z (Qceiling (x + w)) / cellSize in
  let cb := inject_Z (Qceiling (y + h)) / cellSize in
  (cx, cy, cr - cx + 1, cb - cy + 1).

(** The locals of [traverse] that its loop changes. *)
Record TraverseState : Type := mkTraverse {
  tr_tx : Number; tr_ty : Number; tr_cx : Number; tr_cy : Number
}.

(** The test of the [while] loop. *)
Definition traverseFar (cx2 cy2 : Number) (s : TraverseState) : bool :=
  Qltb 1 (Qabs (tr_cx s - cx2) + Qabs (tr_cy s - cy2)).

(** One run of the loop body: the new locals and the cells passed to [f],
    in the order of the calls. *)
Definition traverseStep (stepX dx stepY dy : Number) (s : TraverseState)
  : TraverseState * list (Number * Number) :=
  let '(mkTraverse tx ty cx cy) := s in
  if Qltb tx ty then
    (mkTraverse (tx + dx) ty (cx + stepX) cy, [(cx + stepX, cy)])
  else
    let corner := if Qeqb tx ty then [(cx + stepX, cy)] else [] in
    (mkTraverse tx (ty + dy) cx (cy + stepY),
     corner ++ [(cx, cy + stepY)]).

(** The [while] loop, run for at most [fuel] iterations; [None] when the
    loop has not finished by then. *)
Fixpoint traverseLoop (fuel : nat) (stepX dx stepY dy cx2 cy2 : Number)
  (s : TraverseState) : option (TraverseState * list (Number * Number)) :=
  if traverseFar cx2 cy2 s then
    match fuel with
    | O => None
    | S fuel' =>
        let '(s', visited) := traverseStep stepX dx stepY dy s in
        '(s'', rest) ← traverseLoop fuel' stepX dx stepY dy cx2 cy2 s';
        Some (s'', visited ++ rest)
    end
  else Some (s, []).

(** [traverse]: the callback [f] is modelled by the list of the cells it
    is called with. *)
Definition traverse (fuel : nat) (cellSize x1 y1 x2 y2 : Number)
  : option (list (Number * Number)) :=
  let '(cx1, cy1) := toCell cellSize x1 y1 in
  let '(cx2, cy2) := toCell cellSize x2 y2 in
  let '(stepX, dx, tx) := traverseInitStep cellSize cx1 x1 x2 in
  let '(stepY, dy, ty) := traverseInitStep cellSize cy1 y1 y2 in
  '(s, visited) ←
    traverseLoop fuel stepX dx stepY dy cx2 cy2 (mkTraverse tx ty cx1 cy1);
  Some ((cx1, cy1) :: visited ++
        (if negb (Qeqb (tr_cx s) cx2) || negb (Qeqb (tr_cy s) cy2)
         then [(cx2, cy2)] else [])).

End Grid.

(** ** The world *)

Module World.

(** The data members of [class World].  The [responses] table is left
    out: no function modelled here reads it. *)
Record t : Type := mk {
  cellSize : Number;
  rows : list (list Cell);
  rects : list Rectangle;
  nonEmptyCells : gmap (nat * nat) bool
}.

(** [World(cellSize)], without the registration of the responses. *)
Definition new (cellSize : Number) : t := mk cellSize [] [] ∅.

Definition project (world : t) (item : Item)
  (x y w h goalX goalY : Number) (filter : Filter) : Collisions :=
  ([], 0%N).

(** [static_cast<Index>]: truncation toward zero; the conversion is
    undefined ([None]) outside the range of [std::int32_t]. *)
Definition toIndex (v : Number) : option Index :=
  let i := (Qnum v ÷ Z.pos (Qden v))%Z in
  if ((- 2 ^ 31 <=? i) && (i <? 2 ^ 31))%Z then Some i else None.

(** [v.resize(n)] guarded by [v.size() < n]. *)
Definition growTo {A : Type} (n : nat) (d : A) (v : list A) : list A :=
  if (length v <? n)%nat then resize n d v else v.

(** [None] stands for undefined behaviour: an index conversion out of
    range, or a negative index reaching [operator[]] or [resize]. *)
Definition addItemToCell (world : t) (item : Item) (cx cy : Number)
  : option t :=
  ix ← toIndex cx;
  iy ← toIndex cy;
  if ((ix <? 0) || (iy <? 0) || (2 ^ 31 - 1 <=? ix) || (2 ^ 31 - 1 <=? iy))%Z
  then None
  else
    let ix := Z.to_nat ix in
    let iy := Z.to_nat iy in
    let rows1 := growTo (iy + 1) [] (rows world) in
    let row := default [] (rows1 !! iy) in
    let row1 := growTo (ix + 1) Cell_default row in
    let rows2 := <[iy := row1]> rows1 in
    (* auto &cell = row[ix]; nonEmptyCells[&cell] = true; *)
    Some (mk (cellSize world) rows2 (rects world)
             (<[(iy, ix) := true]> (nonEmptyCells world))).

(** The cell at row [iy], column [ix], when it exists. *)
Definition cellAt (world : t) (iy ix : nat) : option Cell :=
  row ← rows world !! iy; row !! ix.

Record ItemInfo : Type := mkItemInfo {
  info_item : Item;
  info_ti1 : Number;
  info_ti2 : Number;
  weight : Number
}.

Definition sortByWeight (a b : ItemInfo) : bool :=
  Qltb (weight a) (weight b).

Definition sortByTiAndDistance (a b : Collision) : bool :=
  if Qeqb (ti a) (ti b) then
    let ir := itemRect a in
    let ar := otherRect a in
    let br := otherRect b in
    let ad :=
      Rect.getSquareDistance
        (rect_x ir) (rect_y ir) (rect_w ir) (rect_h ir)
        (rect_x ar) (rect_y ar) (rect_w ar) (rect_h ar) in
    let bd :=
      Rect.getSquareDistance
        (rect_x ir) (rect_y ir) (rect_w ir) (rect_h ir)
        (rect_x br) (rect_y br) (rect_w br) (rect_h br) in
    Qltb ad bd
  else Qltb (ti a) (ti b).

End World.

(** ** Responses

    A response receives the world and calls its [project] method.  The
    method is a parameter of the section, so that statements can speak
    about the call a response makes; [World.project] is the method of
    this snapshot.  A response returns its [Response] together with the
    collision [col] as the call leaves it. *)

Definition ProjectFunction : Type :=
  World.t -> Item -> Number -> Number -> Number -> Number ->
  Number -> Number -> Filter -> Collisions.

Module Responses.

Section WithProject.

Variable project : ProjectFunction.

Definition cross (world : World.t) (col : Collision)
  (x y w h goalX goalY : Number) (filter : Filter) : Response * Collision :=
  let '(cols, len) := project world (item col) x y w h goalX goalY filter in
  ((goalX, goalY, cols, len), col).

Definition slide (world : World.t) (col : Collision)
  (x y w h goalX goalY : Number) (filter : Filter) : Response * Collision :=
  let touch := touch col in
  let move := move col in
  let sx := pt_x touch in
  let sy := pt_y touch in
  let '(sx, sy) :=
    if negb (Qeqb (pt_x move) 0) || negb (Qeqb (pt_y move) 0) then
      if Qeqb (pt_x (normal col)) 0 then (goalX, sy) else (sx, goalY)
    else (sx, sy) in
  let col := setSlide col (mkPoint sx sy) in
  let newX := pt_x touch in
  let newY := pt_y touch in
  let newGoalX := sx in
  let newGoalY := sy in
  let '(cols, len) :=
    project world (item col) newX newY w h newGoalX newGoalY filter in
  ((newGoalX, newGoalY, cols, len), col).

Definition bounce (world : World.t) (col : Collision)
  (x y w h goalX goalY : Number) (filter : Filter) : Response * Collision :=
  let touch := touch col in
  let move := move col in
  let tx := pt_x touch in
  let ty := pt_y touch in
  let '(bx, by_) :=
    if negb (Qeqb (pt_x move) 0) || negb (Qeqb (pt_y move) 0) then
      let bnx := goalX - tx in
      let bny := goalY - ty in
      let '(bnx, bny) :=
        if Qeqb (pt_x (normal col)) 0 then (bnx, - bny) else (- bnx, bny) in
      (tx + bnx, ty + bny)
    else (tx, ty) in
  let col := setBounce col (mkPoint bx by_) in
  let newX := pt_x touch in
  let newY := pt_y touch in
  let newGoalX := bx in
  let newGoalY := by_ in
  let '(cols, len) :=
    project world (item col) newX newY w h newGoalX newGoalY filter in
  ((newGoalX, newGoalY, cols, len), col).

Definition touch (world : World.t) (col : Collision)
  (x y w h goalX goalY : Number) (filter : Filter) : Response * Collision :=
  ((pt_x (touch col), pt_y (touch col), [], 0%N), col).

End WithProject.

End Responses.

(** ** The table of responses

    The member [responses] of [class World], with the two methods that
    use it and the registrations made by the constructor. *)

Definition ResponseFunction : Type :=
  World.t -> Collision -> Number -> Number -> Number -> Number ->
  Number -> Number -> Filter -> Response * Collision.

Module Registry.

Definition addResponse (responses : gmap string ResponseFunction)
  (name : string) (handler : ResponseFunction)
  : gmap string ResponseFunction :=
  <[name := handler]> responses.

Definition getResponseByName (responses : gmap string ResponseFunction)
  (name : string) : Result ResponseFunction :=
  match responses !! name with
  | None => Throw NotFoundError
  | Some handler => Ok handler
  end.

(** The registrations of [World::World], on an empty table. *)
Definition initial : gmap string ResponseFunction :=
  let r := addResponse ∅ "touch" Responses.touch in
  let r := addResponse r "cross" (Responses.cross World.project) in
  let r := addResponse r "slide" (Responses.slide World.project) in
  addResponse r "bounce" (Responses.bounce World.project).

End Registry.

(** ** The margin test and the nearest corner in binary64

    The same functions over the doubles of [PrimFloat]: [+] and [-]
    round to the nearest double, ties to even, as the machine's do, and
    [<?] is the comparison of the values. *)

Module Double.

Import PrimFloat.
#[local] Open Scope float_scope.

(** [1e-10], written with its hexadecimal digits. *)
Definition deltaError : float := 0x1.b7cdfd9d7bdbbp-34.

Module Aux.

Definition nearest (value first second : float) : float :=
  if abs (first - value) <? abs (second - value) then first else second.

End Aux.

Module Rect.

Definition getNearestCorner (x y w h px py : float) : float * float :=
  let nearestX := Aux.nearest px x (x + w) in
  let nearestY := Aux.nearest py y (y + h) in
  (nearestX, nearestY).

Definition getDiff (x1 y1 w1 h1 x2 y2 w2 h2 : float)
  : float * float * float * float :=
  (x2 - x1 - w1, y2 - y1 - h1, w1 + w2, h1 + h2).

Definition containsPoint (x y w h px py : float) : bool :=
  (deltaError <? px - x) && (deltaError <? py - y) &&
  (deltaError <? x + w - px) && (deltaError <? y + h - py).

End Rect.

(** The value of a finite double, as a rational. *)
Definition exact (f : float) : Q :=
  match FloatOps.Prim2SF f with
  | SpecFloat.S754_finite s m e =>
      let v :=
        if (0 <=? e)%Z then inject_Z (Z.pos m * 2 ^ e)
        else Z.pos m # 2 ^ Z.to_pos (- e) in
      if s then Qopp v else v
  | _ => 0%Q
  end.

End Double.

(** ** Statements of the specification, in its own words *)

(** A and B overlap by more than [eps] on both axes: on each axis the
    far edge of each rectangle passes the near edge of the other by more
    than [eps]. *)
Definition spec_overlapBeyond (eps x1 y1 w1 h1 x2 y2 w2 h2 : Number) : Prop :=
  eps < x1 + w1 - x2 /\ eps < x2 + w2 - x1 /\
  eps < y1 + h1 - y2 /\ eps < y2 + h2 - y1.

(** The point [(px, py)] lies in the rectangle, boundary included. *)
Definition inClosedRect (x y w h px py : Number) : Prop :=
  x <= px /\ px <= x + w /\ y <= py /\ py <= y + h.



(** A [project] that reports one contact, recording the rectangle and
    the goal it was asked to sweep. *)
Definition projectEcho : ProjectFunction :=
  fun _ item x y w h goalX goalY _ =>
    ([mkCollision (mkPoint (goalX - x) (goalY - y)) (mkPoint 0 0)
        (mkPoint x y) (mkRectangle x y w h) (mkRectangle 0 0 0 0)
        false 0 item nullptr (mkPoint 0 0) (mkPoint 0 0)], 1%N).

(** The constraint of a side, at parameter [t]. *)
Definition sideHolds (x y w h x1 y1 dx dy t : Number) (side : Rect.Side)
  : Prop :=
  let '(_, _, p, q) := Rect.sideCoefficients x y w h x1 y1 dx dy side in
  t * p <= q.

(** One component is -1 or 1 and the other is 0. *)
Definition unitNormal (nx ny : Number) : Prop :=
  ((nx = -1 \/ nx = 1) /\ ny = 0) \/ (nx = 0 /\ (ny = -1 \/ ny = 1)).

(** What the loop keeps about a normal and its bound, [seed] being the
    initial bound: either both are untouched or the normal is a side's. *)
Definition normalTracks (below : bool) (seed t nx ny : Number) : Prop :=
  (nx = 0 /\ ny = 0 /\ t = seed) \/
  (unitNormal nx ny /\ if below then seed < t else t < seed).

(** What the loop keeps about a normal and the motion [(dx, dy)]: the
    normal is (0, 0) with its bound still the seed, or it is the normal
    of a side, and its product with the motion is negative for the
    entry normal ([entry = true]), positive for the exit normal. *)
Definition normalFaces (entry : bool) (seed t dx dy nx ny : Number) : Prop :=
  (nx = 0 /\ ny = 0 /\ t = seed) \/
  (unitNormal nx ny /\
   if entry then nx * dx + ny * dy < 0 else 0 < nx * dx + ny * dy).

(** * Properties *)

(** ** Comparisons *)

Lemma Qltb_true a b : Qltb a b = true <-> a < b.
Proof.
  unfold Qltb. rewrite negb_true_iff, <- not_true_iff_false, Qle_bool_iff.
  split; [apply Qnot_le_lt | apply Qlt_not_le].
Qed.

Lemma Qltb_false a b : Qltb a b = false <-> b <= a.
Proof. unfold Qltb. rewrite negb_false_iff. apply Qle_bool_iff. Qed.

Lemma Qleb_true a b : Qleb a b = true <-> a <= b.
Proof. apply Qle_bool_iff. Qed.

Lemma Qleb_false a b : Qleb a b = false <-> b < a.
Proof.
  unfold Qleb. rewrite <- not_true_iff_false, Qle_bool_iff.
  split; [apply Qnot_le_lt | apply Qlt_not_le].
Qed.

Lemma Qeqb_true a b : Qeqb a b = true <-> a == b.
Proof. apply Qeq_bool_iff. Qed.

Lemma Qeqb_false a b : Qeqb a b = false <-> ~ a == b.
Proof. unfold Qeqb. rewrite <- not_true_iff_false, Qeq_bool_iff. tauto. Qed.

(** Turn the boolean tests of the hypotheses into propositions. *)
Ltac bool_to_prop :=
  repeat match goal with
    | H : Qltb _ _ = true |- _ => apply Qltb_true in H
    | H : Qltb _ _ = false |- _ => apply Qltb_false in H
    | H : Qleb _ _ = true |- _ => apply Qleb_true in H
    | H : Qleb _ _ = false |- _ => apply Qleb_false in H
    | H : Qeqb _ _ = true |- _ => apply Qeqb_true in H
    | H : Qeqb _ _ = false |- _ => apply Qeqb_false in H
    | H : _ && _ = true |- _ => apply andb_true_iff in H; destruct H
    | H : _ || _ = false |- _ => apply orb_false_iff in H; destruct H
    end.

(** Case analysis on the first test of the goal. *)
Ltac case_test :=
  match goal with
  | |- context [if ?c then _ else _] =>
      let E := fresh "E" in destruct c eqn:E; bool_to_prop
  end.

(** ** The geometry kernel *)

(** C9 as stated fails: the point (5, 5) is equidistant from both
    candidates on each axis of the rectangle (0, 0, 10, 10), and the
    corner returned is (10, 10), not the first candidates (0, 0). *)
Lemma getNearestCorner_tie_not_first :
  Qabs (0 - 5) == Qabs (0 + 10 - 5) /\
  ~ fst (Rect.getNearestCorner 0 0 10 10 5 5) == 0 /\
  ~ snd (Rect.getNearestCorner 0 0 10 10 5 5) == 0.
Proof. vm_compute. repeat split; discriminate. Qed.

(** In the rationals the margins of [getDiff] are the overlaps of the
    two rectangles. *)
Lemma containsPoint_getDiff_origin (x1 y1 w1 h1 x2 y2 w2 h2 : Number) :
  Rect.containsPoint (x2 - x1 - w1) (y2 - y1 - h1) (w1 + w2) (h1 + h2) 0 0
    = true
  <-> spec_overlapBeyond deltaError x1 y1 w1 h1 x2 y2 w2 h2.
Proof.
  unfold Rect.containsPoint, spec_overlapBeyond.
  rewrite !andb_true_iff, !Qltb_true.
  split; intros H; repeat split; lra.
Qed.

(** ** Segment clipping *)

Lemma Qdiv_mul_den (q p : Number) : ~ p == 0 -> q / p * p == q.
Proof. intros Hp. field. exact Hp. Qed.

(** A linear constraint that holds at both ends of an interval holds
    inside it. *)
Lemma constraint_between (a b t p q : Number) :
  a <= t -> t <= b -> a * p <= q -> b * p <= q -> t * p <= q.
Proof.
  intros Hat Htb Ha Hb.
  destruct (Qlt_le_dec p 0) as [Hp | Hp]; nra.
Qed.

(** One side: the bounds only tighten, stay ordered, and afterwards both
    satisfy the side's constraint [t * p <= q]. *)
Lemma clipSide_tightens (nx ny p q : Number) (s s' : Rect.ClipState) :
  Rect.ti1 s <= Rect.ti2 s ->
  Rect.clipSide nx ny p q s = Ok s' ->
  Rect.ti1 s <= Rect.ti1 s' /\ Rect.ti1 s' <= Rect.ti2 s' /\
  Rect.ti2 s' <= Rect.ti2 s /\
  Rect.ti1 s' * p <= q /\ Rect.ti2 s' * p <= q.
Proof.
  intros Hord. unfold Rect.clipSide.
  case_test.
  - case_test; [discriminate |].
    intros [= <-]. repeat split; try lra; nra.
  - pose proof (Qdiv_mul_den q p E) as Hr.
    set (r := q / p) in *. clearbody r. cbv zeta.
    repeat case_test; try discriminate; intros [= <-]; cbn;
      repeat split; try lra; nra.
Qed.

Lemma clipSide_throws (nx ny p q : Number) (s : Rect.ClipState) e :
  Rect.clipSide nx ny p q s = Throw e -> e = ComputationError.
Proof.
  unfold Rect.clipSide. cbv zeta.
  repeat case_test; intros [= <-]; reflexivity.
Qed.

Lemma clipSides_tightens (x y w h x1 y1 dx dy : Number) sides :
  forall s s',
    Rect.ti1 s <= Rect.ti2 s ->
    Rect.clipSides x y w h x1 y1 dx dy sides s = Ok s' ->
    Rect.ti1 s <= Rect.ti1 s' /\ Rect.ti1 s' <= Rect.ti2 s' /\
    Rect.ti2 s' <= Rect.ti2 s /\
    Forall (fun side =>
              sideHolds x y w h x1 y1 dx dy (Rect.ti1 s') side /\
              sideHolds x y w h x1 y1 dx dy (Rect.ti2 s') side) sides.
Proof.
  induction sides as [| side rest IH]; intros s s' Hord Hrun.
  - injection Hrun as <-. repeat split; try lra. constructor.
  - cbn [Rect.clipSides] in Hrun. unfold sideHolds.
    destruct (Rect.sideCoefficients x y w h x1 y1 dx dy side)
      as [[[nx ny] p] q] eqn:Hco.
    destruct (Rect.clipSide nx ny p q s) as [s1 | e] eqn:Hstep;
      [| discriminate].
    cbn in Hrun.
    destruct (clipSide_tightens _ _ _ _ _ _ Hord Hstep)
      as (H1 & H2 & H3 & H4 & H5).
    destruct (IH _ _ H2 Hrun) as (I1 & I2 & I3 & I4).
    repeat split; try lra.
    constructor; [| exact I4].
    rewrite Hco.
    split; apply (constraint_between (Rect.ti1 s1) (Rect.ti2 s1)); lra.
Qed.

Lemma clipSides_throws (x y w h x1 y1 dx dy : Number) sides :
  forall s e,
    Rect.clipSides x y w h x1 y1 dx dy sides s = Throw e ->
    e = ComputationError.
Proof.
  induction sides as [| side rest IH]; intros s e Hrun.
  - discriminate.
  - cbn [Rect.clipSides] in Hrun.
    destruct (Rect.sideCoefficients x y w h x1 y1 dx dy side)
      as [[[nx ny] p] q].
    destruct (Rect.clipSide nx ny p q s) as [s1 | e1] eqn:Hstep; cbn in Hrun.
    + eapply IH, Hrun.
    + injection Hrun as <-. eapply clipSide_throws, Hstep.
Qed.

(** A successful clip: ordered bounds inside the seeds, and, in the
    rationals, both ends of the clipped piece in the closed rectangle. *)
Lemma getSegmentIntersectionIndices_sound
  (x y w h x1 y1 x2 y2 lo hi : Number) t1 t2 n1x n1y n2x n2y :
  lo <= hi ->
  Rect.getSegmentIntersectionIndices x y w h x1 y1 x2 y2 lo hi
    = Ok (t1, t2, n1x, n1y, n2x, n2y) ->
  (lo <= t1 /\ t1 <= t2 /\ t2 <= hi) /\
  inClosedRect x y w h (x1 + t1 * (x2 - x1)) (y1 + t1 * (y2 - y1)) /\
  inClosedRect x y w h (x1 + t2 * (x2 - x1)) (y1 + t2 * (y2 - y1)).
Proof.
  intros Hord. unfold Rect.getSegmentIntersectionIndices. cbv zeta.
  destruct (Rect.clipSides _ _ _ _ _ _ _ _ _ _) as [s | e] eqn:Hrun;
    [| discriminate].
  cbn. intros [= <- <- <- <- <- <-].
  apply clipSides_tightens in Hrun; [| exact Hord].
  cbn in Hrun. destruct Hrun as (H1 & H2 & H3 & HF).
  unfold Rect.allSides in HF.
  repeat match goal with
         | H : Forall _ (_ :: _) |- _ =>
             apply Forall_cons_1 in H; destruct H as [[? ?] H]
         end.
  unfold sideHolds in *; cbn in *. unfold inClosedRect.
  repeat split; lra.
Qed.

(** C10: with seeds [ti1 <= ti2], a clip that returns gives bounds with
    [ti1 <= ti1' <= ti2' <= ti2]. *)
Theorem getSegmentIntersectionIndices_tightens
  (x y w h x1 y1 x2 y2 ti1 ti2 : Number) ti1' ti2' n1x n1y n2x n2y :
  ti1 <= ti2 ->
  Rect.getSegmentIntersectionIndices x y w h x1 y1 x2 y2 ti1 ti2
    = Ok (ti1', ti2', n1x, n1y, n2x, n2y) ->
  ti1 <= ti1' /\ ti1' <= ti2' /\ ti2' <= ti2.
Proof.
  intros Hord Hrun.
  exact (proj1 (getSegmentIntersectionIndices_sound _ _ _ _ _ _ _ _ _ _
                  _ _ _ _ _ _ Hord Hrun)).
Qed.

(** ** Which segments raise, and which normals come back *)

Ltac clip_solve := first [ lra | nra ].

(** Decide the tests of the four sides one after the other. *)
Ltac clip_run :=
  repeat (cbn [mbind Result_bind Rect.ti1 Rect.ti2
                 Rect.nx1 Rect.ny1 Rect.nx2 Rect.ny2];
          case_test; try (exfalso; clip_solve)).

(** A segment parallel to two sides, on the line of one of them or
    beyond it: the side's test [p == 0], [q <= 0] raises. *)
Lemma clip_parallel_beyond (x y w h x1 y1 dx dy lo hi : Number) :
  (dx == 0 /\ (x1 <= x \/ x + w <= x1)) \/
  (dy == 0 /\ (y1 <= y \/ y + h <= y1)) ->
  Rect.clipSides x y w h x1 y1 dx dy Rect.allSides
    (Rect.mkClip lo hi 0 0 0 0) = Throw ComputationError.
Proof.
  intros H.
  unfold Rect.allSides, Rect.clipSides, Rect.sideCoefficients, Rect.clipSide.
  cbv zeta.
  destruct H as [[E [H | H]] | [E [H | H]]];
    repeat (cbn [mbind Result_bind Rect.ti1 Rect.ti2];
            case_test; try reflexivity; try (exfalso; lra)).
Qed.

(** The coefficient [p] of a side is the product of its outward normal
    with the motion. *)
Lemma sideCoefficients_dot (x y w h x1 y1 dx dy : Number) side :
  let '(nx, ny, p, _) := Rect.sideCoefficients x y w h x1 y1 dx dy side in
  unitNormal nx ny /\ p == nx * dx + ny * dy.
Proof.
  destruct side; cbn; unfold unitNormal; split; try tauto; ring.
Qed.

Lemma clipSide_faces (lo hi dx dy nx ny p q : Number) (s s' : Rect.ClipState) :
  unitNormal nx ny -> p == nx * dx + ny * dy ->
  normalFaces true lo (Rect.ti1 s) dx dy (Rect.nx1 s) (Rect.ny1 s) ->
  normalFaces false hi (Rect.ti2 s) dx dy (Rect.nx2 s) (Rect.ny2 s) ->
  Rect.clipSide nx ny p q s = Ok s' ->
  normalFaces true lo (Rect.ti1 s') dx dy (Rect.nx1 s') (Rect.ny1 s') /\
  normalFaces false hi (Rect.ti2 s') dx dy (Rect.nx2 s') (Rect.ny2 s').
Proof.
  intros Hu Hdot H1 H2. unfold Rect.clipSide. cbv zeta.
  repeat case_test; try discriminate; intros [= <-]; cbn;
    (split; [try exact H1 | try exact H2]).
  - right. split; [exact Hu | lra].
  - right. split; [exact Hu |].
    destruct (Qlt_le_dec 0 p) as [Hp | Hp]; [lra |].
    exfalso. apply E. lra.
Qed.

Lemma clipSides_faces (lo hi x y w h x1 y1 dx dy : Number) sides :
  forall s s',
    normalFaces true lo (Rect.ti1 s) dx dy (Rect.nx1 s) (Rect.ny1 s) ->
    normalFaces false hi (Rect.ti2 s) dx dy (Rect.nx2 s) (Rect.ny2 s) ->
    Rect.clipSides x y w h x1 y1 dx dy sides s = Ok s' ->
    normalFaces true lo (Rect.ti1 s') dx dy (Rect.nx1 s') (Rect.ny1 s') /\
    normalFaces false hi (Rect.ti2 s') dx dy (Rect.nx2 s') (Rect.ny2 s').
Proof.
  induction sides as [| side rest IH]; intros s s' H1 H2 Hrun.
  - injection Hrun as <-. split; assumption.
  - cbn [Rect.clipSides] in Hrun.
    pose proof (sideCoefficients_dot x y w h x1 y1 dx dy side) as Hd.
    destruct (Rect.sideCoefficients x y w h x1 y1 dx dy side)
      as [[[nx ny] p] q].
    destruct Hd as [Hu Hdot].
    destruct (Rect.clipSide nx ny p q s) as [s1 | e] eqn:Hstep;
      [| discriminate].
    cbn in Hrun.
    destruct (clipSide_faces _ _ _ _ _ _ _ _ _ _ Hu Hdot H1 H2 Hstep)
      as [I1 I2].
    exact (IH _ _ I1 I2 Hrun).
Qed.

Lemma getSegmentIntersectionIndices_faces
  (x y w h x1 y1 x2 y2 lo hi : Number) t1 t2 n1x n1y n2x n2y :
  Rect.getSegmentIntersectionIndices x y w h x1 y1 x2 y2 lo hi
    = Ok (t1, t2, n1x, n1y, n2x, n2y) ->
  normalFaces true lo t1 (x2 - x1) (y2 - y1) n1x n1y /\
  normalFaces false hi t2 (x2 - x1) (y2 - y1) n2x n2y.
Proof.
  unfold Rect.getSegmentIntersectionIndices. cbv zeta.
  destruct (Rect.clipSides _ _ _ _ _ _ _ _ _ _) as [s | e] eqn:Hrun;
    [| discriminate].
  cbn. intros [= <- <- <- <- <- <-].
  apply (clipSides_faces lo hi) in Hrun; [exact Hrun | |];
    left; cbn; repeat split; reflexivity.
Qed.






(** The same holds for every pair of seeds around that piece of the
    line, however wide. *)
Lemma clip_outside_segment_any_wide_seeds (lo hi : Number) :
  lo < 2 -> 3 < hi ->
  exists t1 t2,
    Rect.getSegmentIntersectionIndices 0 0 10 10 (-20) 5 (-10) 5 lo hi
      = Ok (t1, t2, -1, 0, 1, 0) /\
    t1 == 2 /\ t2 == 3.
Proof.
  intros Hlo Hhi.
  unfold Rect.getSegmentIntersectionIndices, Rect.allSides, Rect.clipSides,
    Rect.sideCoefficients, Rect.clipSide.
  cbv zeta.
  assert (E1 : (-20 - 0) / - (-10 - -20) == 2) by reflexivity.
  assert (E2 : (0 + 10 - -20) / (-10 - -20) == 3) by reflexivity.
  set (r1 := (-20 - 0) / - (-10 - -20)) in *.
  set (r2 := (0 + 10 - -20) / (-10 - -20)) in *.
  clearbody r1 r2.
  clip_run.
  cbn. eexists _, _. split; [reflexivity |]. split; assumption.
Qed.

Lemma getSegmentIntersectionIndices_tightens_witness :
  0 <= 1 /\ 0 <= 10 # 30 /\ 10 # 30 <= 1 /\ 1 <= 1.
Proof.
  assert (H : 0 <= 1) by (vm_compute; discriminate).
  split; [exact H |].
  apply (getSegmentIntersectionIndices_tightens
           10 (-10) 20 20 0 0 30 0 0 1 (10 # 30) 1 (-1) 0 0 0 H).
  vm_compute. reflexivity.
Defined.

(** ** Resting overlap *)


Lemma deltaError_pos : 0 < deltaError.
Proof. reflexivity. Qed.




(** ** Collisions that do not exist *)

(** C1 (what the code does): for rectangles that do not intersect and a
    goal equal to the mover's position, the error raised by the clip
    leaves [detectCollision]; no [Collision] is returned. *)
Theorem detectCollision_raises_when_apart
  (x1 y1 w1 h1 x2 y2 w2 h2 : Number) :
  Rect.isIntersecting x1 y1 w1 h1 x2 y2 w2 h2 = false ->
  Rect.detectCollision x1 y1 w1 h1 x2 y2 w2 h2 x1 y1
    = Throw ComputationError.
Proof.
  intros Hapart.
  pose proof deltaError_pos as Heps.
  assert (Hc : Rect.containsPoint (x2 - x1 - w1) (y2 - y1 - h1)
                 (w1 + w2) (h1 + h2) 0 0 = false).
  { apply not_true_iff_false. intros Hc.
    apply containsPoint_getDiff_origin in Hc.
    destruct Hc as (O1 & O2 & O3 & O4).
    apply not_true_iff_false in Hapart. apply Hapart.
    unfold Rect.isIntersecting. rewrite !andb_true_iff, !Qltb_true.
    repeat split; lra. }
  unfold Rect.detectCollision, Rect.getDiff. rewrite Hc.
  unfold Rect.getSegmentIntersectionIndices, Rect.allSides, Rect.clipSides,
    Rect.sideCoefficients, Rect.clipSide.
  cbv zeta.
  assert (Ex : x1 - x1 - 0 == 0) by lra.
  assert (Ey : y1 - y1 - 0 == 0) by lra.
  unfold Rect.isIntersecting in Hapart.
  repeat (cbn [mbind Result_bind]; case_test; try reflexivity;
          try (exfalso; lra)).
  all: exfalso; apply not_true_iff_false in Hapart; apply Hapart.
  all: rewrite !andb_true_iff, !Qltb_true; repeat split; lra.
Qed.

Lemma detectCollision_raises_when_apart_witness :
  Rect.isIntersecting 0 0 10 10 20 0 10 10 = false /\
  Rect.detectCollision 0 0 10 10 20 0 10 10 0 0 = Throw ComputationError.
Proof.
  assert (H : Rect.isIntersecting 0 0 10 10 20 0 10 10 = false)
    by (vm_compute; reflexivity).
  split; [exact H |].
  exact (detectCollision_raises_when_apart 0 0 10 10 20 0 10 10 H).
Defined.

(** The guard of [detectCollision] tests [ti < 1] on the initial [ti],
    so a contact beyond the goal is accepted: the mover (0, 0, 10, 10)
    with goal (5, 0) never reaches the rectangle (100, 0, 10, 10), and
    the result carries [ti = 18]. *)
Lemma detectCollision_beyond_goal :
  exists col,
    Rect.detectCollision 0 0 10 10 100 0 10 10 5 0 = Ok col /\
    overlaps col = false /\ ti col == 18.
Proof.
  eexists. split; [vm_compute; reflexivity |].
  split; reflexivity.
Qed.

(** ** Responses *)

(** C5: with nonzero motion, [slide] keeps the goal's coordinate on the
    axis where the normal is zero and the touch point's coordinate on
    the other one, returns this adjusted goal as the resolved position
    and calls [project] from the touch point toward it; for the mover
    (0, 0, 10, 10) with goal (30, 0) against (20, 0, 10, 10) the
    resolved position is x = 10, the touch x, and y = 0. *)
Theorem slide_adjusts_goal :
  (forall (project : ProjectFunction) world col x y w h goalX goalY filter,
      (~ pt_x (move col) == 0 \/ ~ pt_y (move col) == 0) ->
      let tx := pt_x (touch col) in
      let ty := pt_y (touch col) in
      (pt_x (normal col) == 0 ->
       Responses.slide project world col x y w h goalX goalY filter
       = ((goalX, ty,
           fst (project world (item col) tx ty w h goalX ty filter),
           snd (project world (item col) tx ty w h goalX ty filter)),
          setSlide col (mkPoint goalX ty))) /\
      (~ pt_x (normal col) == 0 ->
       Responses.slide project world col x y w h goalX goalY filter
       = ((tx, goalY,
           fst (project world (item col) tx ty w h tx goalY filter),
           snd (project world (item col) tx ty w h tx goalY filter)),
          setSlide col (mkPoint tx goalY)))) /\
  (exists col,
      Rect.detectCollision 0 0 10 10 20 0 10 10 30 0 = Ok col /\
      forall (project : ProjectFunction) world filter,
        let '((sx, sy, _, _), _) :=
          Responses.slide project world col 0 0 10 10 30 0 filter in
        sx = pt_x (touch col) /\ sx == 10 /\ sy == 0).
Proof.
  split.
  - intros project world col x y w h goalX goalY filter Hmove tx ty.
    assert (Hm : negb (Qeqb (pt_x (move col)) 0)
                 || negb (Qeqb (pt_y (move col)) 0) = true).
    { apply orb_true_iff.
      destruct Hmove as [H | H]; [left | right];
        apply negb_true_iff, Qeqb_false; exact H. }
    unfold Responses.slide. cbv zeta. rewrite Hm.
    split; intros Hn.
    + apply Qeqb_true in Hn. rewrite Hn. cbn [item setSlide].
      fold tx ty.
      destruct (project world (item col) tx ty w h goalX ty filter).
      reflexivity.
    + apply Qeqb_false in Hn. rewrite Hn. cbn [item setSlide].
      fold tx ty.
      destruct (project world (item col) tx ty w h tx goalY filter).
      reflexivity.
  - eexists. split; [vm_compute; reflexivity |].
    intros project world filter.
    unfold Responses.slide.
    cbv.
    match goal with
    | |- context [project ?a ?b ?c ?d ?e ?f ?g ?h ?i] =>
        destruct (project a b c d e f g h i)
    end.
    repeat split; reflexivity.
Qed.

Lemma slide_adjusts_goal_witness :
  (~ 30 == 0 \/ ~ 0 == 0) /\ ~ -1 == 0 /\
  fst (Responses.slide World.project (World.new 64)
         (mkCollision (mkPoint 30 0) (mkPoint (-1) 0) (mkPoint 10 0)
            (mkRectangle 0 0 10 10) (mkRectangle 20 0 10 10)
            false (1 # 3) nullptr nullptr (mkPoint 0 0) (mkPoint 0 0))
         0 0 10 10 30 0 (fun _ _ => true))
  = (10, 0, [], 0%N).
Proof.
  assert (Hm : ~ 30 == 0 \/ ~ 0 == 0) by (left; discriminate).
  assert (Hn : ~ -1 == 0) by discriminate.
  split; [exact Hm |]. split; [exact Hn |].
  rewrite (proj2 (proj1 slide_adjusts_goal World.project (World.new 64)
                    (mkCollision (mkPoint 30 0) (mkPoint (-1) 0) (mkPoint 10 0)
                       (mkRectangle 0 0 10 10) (mkRectangle 20 0 10 10)
                       false (1 # 3) nullptr nullptr (mkPoint 0 0) (mkPoint 0 0))
                    0 0 10 10 30 0 (fun _ _ => true) Hm) Hn).
  reflexivity.
Defined.

(** C3 (as the code has it): [cross] returns the original goal as the
    resolved position and takes its further collisions from [project]
    called with the position [(x, y)] it received, toward the original
    goal and under the same filter. *)
Theorem cross_projects_from_given_position
  (project : ProjectFunction) world col (x y w h goalX goalY : Number) filter :
  Responses.cross project world col x y w h goalX goalY filter
  = ((goalX, goalY,
      fst (project world (item col) x y w h goalX goalY filter),
      snd (project world (item col) x y w h goalX goalY filter)),
     col).
Proof.
  unfold Responses.cross.
  destruct (project world (item col) x y w h goalX goalY filter).
  reflexivity.
Qed.

(** C3 as stated fails: for a collision whose touch point is (10, 0) and
    a mover at (0, 0), the sweep that [cross] asks of [project] starts at
    the mover's x = 0, not at the touch point's x = 10. *)
Lemma cross_not_from_touch_point :
  let col :=
    mkCollision (mkPoint 30 0) (mkPoint (-1) 0) (mkPoint 10 0)
      (mkRectangle 0 0 10 10) (mkRectangle 20 0 10 10)
      false (1 # 3) nullptr nullptr (mkPoint 0 0) (mkPoint 0 0) in
  let world := World.new 64 in
  let filter : Filter := fun _ _ => true in
  exists c c',
    snd (fst (fst (Responses.cross projectEcho world col
                     0 0 10 10 30 0 filter))) = [c] /\
    fst (projectEcho world (item col) (pt_x (touch col)) (pt_y (touch col))
           10 10 30 0 filter) = [c'] /\
    rect_x (itemRect c) == 0 /\
    rect_x (itemRect c') == 10 /\
    ~ rect_x (itemRect c) == rect_x (itemRect c').
Proof.
  cbv zeta. eexists _, _.
  split; [reflexivity |]. split; [reflexivity |].
  cbn. repeat split; discriminate.
Qed.

(** ** The grid *)

Lemma toCell_quotient (cellSize x y : Number) :
  Grid.toCell cellSize x y = (x / cellSize + 1, y / cellSize + 1).
Proof. reflexivity. Qed.

(** C2 (what the code does): with cell size 64 the point (32, 32) is
    mapped to (3/2, 3/2) and not to the cell
    (floor(32/64) + 1, floor(32/64) + 1) = (1, 1). *)
Theorem toCell_does_not_floor :
  fst (Grid.toCell 64 32 32) == 3 # 2 /\
  snd (Grid.toCell 64 32 32) == 3 # 2 /\
  inject_Z (Qfloor (32 / 64) + 1) == 1 /\
  ~ fst (Grid.toCell 64 32 32) == inject_Z (Qfloor (32 / 64) + 1) /\
  ~ snd (Grid.toCell 64 32 32) == inject_Z (Qfloor (32 / 64) + 1).
Proof. vm_compute. repeat split; discriminate. Qed.

(** ** The cell index *)

Lemma growTo_length {A : Type} (n : nat) (d : A) (v : list A) :
  (n <= length (World.growTo n d v))%nat.
Proof.
  unfold World.growTo.
  destruct (Nat.ltb_spec (length v) n); [rewrite length_resize |]; lia.
Qed.

Lemma growTo_lookup {A : Type} (n : nat) (d : A) (v : list A) (i : nat) :
  (i < n)%nat -> World.growTo n d v !! i = Some (default d (v !! i)).
Proof.
  intros Hi. unfold World.growTo.
  destruct (Nat.ltb_spec (length v) n) as [Hlt | Hge].
  - destruct (Nat.lt_ge_cases i (length v)) as [Hin | Hout].
    + rewrite lookup_resize by lia.
      destruct (lookup_lt_is_Some_2 v i Hin) as [c Hc]. now rewrite Hc.
    + rewrite lookup_resize_new by lia.
      now rewrite (lookup_ge_None_2 v i Hout).
  - destruct (lookup_lt_is_Some_2 v i) as [c Hc]; [lia |]. now rewrite Hc.
Qed.

(** C4 (what the code does): [addItemToCell] enters the targeted cell in
    the non-empty index and creates it when needed, but leaves the cell
    itself as it was: the item is not stored in it. *)
Theorem addItemToCell_leaves_cell_unchanged
  (world world' : World.t) (item : Item) (cx cy : Number) :
  World.addItemToCell world item cx cy = Some world' ->
  exists iy ix : nat,
    World.toIndex cy = Some (Z.of_nat iy) /\
    World.toIndex cx = Some (Z.of_nat ix) /\
    World.nonEmptyCells world' !! (iy, ix) = Some true /\
    World.cellAt world' iy ix
      = Some (default Cell_default (World.cellAt world iy ix)).
Proof.
  unfold World.addItemToCell.
  destruct (World.toIndex cx) as [zx |] eqn:Hx; [| discriminate].
  destruct (World.toIndex cy) as [zy |] eqn:Hy; [| discriminate].
  cbn [mbind option_bind].
  destruct (Z.ltb_spec zx 0); [discriminate |].
  destruct (Z.ltb_spec zy 0); [discriminate |].
  cbn [orb].
  destruct (_ || _)%bool; [discriminate |].
  intros [= <-].
  exists (Z.to_nat zy), (Z.to_nat zx).
  rewrite !Z2Nat.id by lia.
  split; [reflexivity |]. split; [reflexivity |].
  cbn [World.nonEmptyCells]. split; [apply lookup_insert_eq |].
  unfold World.cellAt. cbn [World.rows].
  set (iy := Z.to_nat zy). set (ix := Z.to_nat zx).
  pose proof (growTo_length (iy + 1) [] (World.rows world)) as Hlen.
  rewrite list_lookup_insert_eq by lia.
  cbn [mbind option_bind].
  rewrite growTo_lookup by lia.
  rewrite growTo_lookup by lia.
  destruct (World.rows world !! iy) as [row |]; reflexivity.
Qed.

Lemma addItemToCell_leaves_cell_unchanged_witness :
  exists world',
    World.addItemToCell (World.new 64) 7%N 0 0 = Some world' /\
    World.nonEmptyCells world' !! (0%nat, 0%nat) = Some true /\
    items <$> World.cellAt world' 0 0 = Some [].
Proof.
  assert (H : World.addItemToCell (World.new 64) 7%N 0 0
              = Some (World.mk 64 [[Cell_default]] []
                        (<[(0%nat, 0%nat) := true]> ∅)))
    by reflexivity.
  eexists. split; [exact H |].
  destruct (addItemToCell_leaves_cell_unchanged _ _ _ _ _ H)
    as (iy & ix & Hy & Hx & Hidx & Hcell).
  change (World.toIndex 0) with (Some 0%Z) in Hy, Hx.
  assert (iy = 0%nat) as -> by (injection Hy; lia).
  assert (ix = 0%nat) as -> by (injection Hx; lia).
  split; [exact Hidx |].
  rewrite Hcell. reflexivity.
Defined.

(** * Further properties of the code *)

(** ** More on segment clipping *)

Lemma sideCoefficients_unit (x y w h x1 y1 dx dy : Number) side :
  let '(nx, ny, _, _) := Rect.sideCoefficients x y w h x1 y1 dx dy side in
  unitNormal nx ny.
Proof. destruct side; cbn; unfold unitNormal; tauto. Qed.

Lemma clipSide_normals (lo hi nx ny p q : Number) (s s' : Rect.ClipState) :
  unitNormal nx ny ->
  normalTracks true lo (Rect.ti1 s) (Rect.nx1 s) (Rect.ny1 s) ->
  normalTracks false hi (Rect.ti2 s) (Rect.nx2 s) (Rect.ny2 s) ->
  Rect.clipSide nx ny p q s = Ok s' ->
  normalTracks true lo (Rect.ti1 s') (Rect.nx1 s') (Rect.ny1 s') /\
  normalTracks false hi (Rect.ti2 s') (Rect.nx2 s') (Rect.ny2 s').
Proof.
  intros Hu H1 H2. unfold Rect.clipSide. cbv zeta.
  repeat case_test; try discriminate; intros [= <-]; cbn;
    (split; [try exact H1 | try exact H2]).
  - right. split; [exact Hu |].
    destruct H1 as [(_ & _ & Hseed) | [_ H1]]; [rewrite Hseed in * |]; lra.
  - right. split; [exact Hu |].
    destruct H2 as [(_ & _ & Hseed) | [_ H2]]; [rewrite Hseed in * |]; lra.
Qed.

Lemma clipSides_normals (lo hi x y w h x1 y1 dx dy : Number) sides :
  forall s s',
    normalTracks true lo (Rect.ti1 s) (Rect.nx1 s) (Rect.ny1 s) ->
    normalTracks false hi (Rect.ti2 s) (Rect.nx2 s) (Rect.ny2 s) ->
    Rect.clipSides x y w h x1 y1 dx dy sides s = Ok s' ->
    normalTracks true lo (Rect.ti1 s') (Rect.nx1 s') (Rect.ny1 s') /\
    normalTracks false hi (Rect.ti2 s') (Rect.nx2 s') (Rect.ny2 s').
Proof.
  induction sides as [| side rest IH]; intros s s' H1 H2 Hrun.
  - injection Hrun as <-. split; assumption.
  - cbn [Rect.clipSides] in Hrun.
    pose proof (sideCoefficients_unit x y w h x1 y1 dx dy side) as Hu.
    destruct (Rect.sideCoefficients x y w h x1 y1 dx dy side)
      as [[[nx ny] p] q].
    destruct (Rect.clipSide nx ny p q s) as [s1 | e] eqn:Hstep;
      [| discriminate].
    cbn in Hrun.
    destruct (clipSide_normals _ _ _ _ _ _ _ _ Hu H1 H2 Hstep) as [I1 I2].
    exact (IH _ _ I1 I2 Hrun).
Qed.

Lemma getSegmentIntersectionIndices_normals_aux
  (x y w h x1 y1 x2 y2 lo hi : Number) t1 t2 n1x n1y n2x n2y :
  Rect.getSegmentIntersectionIndices x y w h x1 y1 x2 y2 lo hi
    = Ok (t1, t2, n1x, n1y, n2x, n2y) ->
  (n1x = 0 /\ n1y = 0) \/ unitNormal n1x n1y.
Proof.
  unfold Rect.getSegmentIntersectionIndices. cbv zeta.
  destruct (Rect.clipSides _ _ _ _ _ _ _ _ _ _) as [s | e] eqn:Hrun;
    [| discriminate].
  cbn. intros [= <- <- <- <- <- <-].
  apply (clipSides_normals lo hi) in Hrun;
    [| left; cbn; repeat split; reflexivity..].
  destruct Hrun as [[(? & ? & _) | [? _]] _]; [left | right]; tauto.
Qed.

(** Every normal the clip returns is either (0, 0), and then its bound
    is the seed it was given, or the outward normal of a side, and then
    its bound was tightened strictly. *)
Theorem getSegmentIntersectionIndices_normals
  (x y w h x1 y1 x2 y2 lo hi : Number) t1 t2 n1x n1y n2x n2y :
  Rect.getSegmentIntersectionIndices x y w h x1 y1 x2 y2 lo hi
    = Ok (t1, t2, n1x, n1y, n2x, n2y) ->
  ((n1x = 0 /\ n1y = 0 /\ t1 = lo) \/ (unitNormal n1x n1y /\ lo < t1)) /\
  ((n2x = 0 /\ n2y = 0 /\ t2 = hi) \/ (unitNormal n2x n2y /\ t2 < hi)).
Proof.
  unfold Rect.getSegmentIntersectionIndices. cbv zeta.
  destruct (Rect.clipSides _ _ _ _ _ _ _ _ _ _) as [s | e] eqn:Hrun;
    [| discriminate].
  cbn. intros [= <- <- <- <- <- <-].
  apply (clipSides_normals lo hi) in Hrun; [exact Hrun | |];
    left; cbn; repeat split; reflexivity.
Qed.

Lemma getSegmentIntersectionIndices_normals_witness :
  ((-1 = 0 /\ 0 = 0 /\ 10 # 30 = - Number_max) \/
   (unitNormal (-1) 0 /\ - Number_max < 10 # 30)) /\
  ((1 = 0 /\ 0 = 0 /\ 30 # 30 = Number_max) \/
   (unitNormal 1 0 /\ 30 # 30 < Number_max)).
Proof.
  apply (getSegmentIntersectionIndices_normals
           10 (-10) 20 20 0 0 30 0 (- Number_max) Number_max).
  vm_compute. reflexivity.
Defined.



(** A side that a clip has passed is passed again, without any change,
    by the bounds that satisfy its constraint. *)
Lemma clipSide_fixed (nx ny p q : Number) (s : Rect.ClipState) :
  Rect.ti1 s <= Rect.ti2 s ->
  Rect.ti1 s * p <= q -> Rect.ti2 s * p <= q -> (p == 0 -> 0 < q) ->
  Rect.clipSide nx ny p q s = Ok s.
Proof.
  intros Hord H1 H2 Hq. unfold Rect.clipSide.
  case_test.
  - specialize (Hq E). case_test; [exfalso; lra | reflexivity].
  - pose proof (Qdiv_mul_den q p E) as Hr.
    set (r := q / p) in *. clearbody r. cbv zeta.
    repeat case_test; try reflexivity; exfalso; nra.
Qed.

Lemma clipSide_parallel_open (nx ny p q : Number) (s s' : Rect.ClipState) :
  Rect.clipSide nx ny p q s = Ok s' -> p == 0 -> 0 < q.
Proof.
  unfold Rect.clipSide. intros Hrun Hp.
  apply Qeqb_true in Hp. rewrite Hp in Hrun.
  destruct (Qleb q 0) eqn:E; [discriminate |]. bool_to_prop. exact E.
Qed.

Lemma clipSides_parallel_open (x y w h x1 y1 dx dy : Number) sides :
  forall s s',
    Rect.clipSides x y w h x1 y1 dx dy sides s = Ok s' ->
    Forall (fun side =>
              let '(_, _, p, q) :=
                Rect.sideCoefficients x y w h x1 y1 dx dy side in
              p == 0 -> 0 < q) sides.
Proof.
  induction sides as [| side rest IH]; intros s s' Hrun.
  - constructor.
  - cbn [Rect.clipSides] in Hrun.
    destruct (Rect.sideCoefficients x y w h x1 y1 dx dy side)
      as [[[nx ny] p] q] eqn:Hco.
    destruct (Rect.clipSide nx ny p q s) as [s1 | e] eqn:Hstep;
      [| discriminate].
    cbn in Hrun. constructor.
    + rewrite Hco. exact (clipSide_parallel_open _ _ _ _ _ _ Hstep).
    + exact (IH _ _ Hrun).
Qed.

Lemma clipSides_fixed (x y w h x1 y1 dx dy : Number) sides (s : Rect.ClipState) :
  Rect.ti1 s <= Rect.ti2 s ->
  Forall (fun side =>
            sideHolds x y w h x1 y1 dx dy (Rect.ti1 s) side /\
            sideHolds x y w h x1 y1 dx dy (Rect.ti2 s) side) sides ->
  Forall (fun side =>
            let '(_, _, p, q) :=
              Rect.sideCoefficients x y w h x1 y1 dx dy side in
            p == 0 -> 0 < q) sides ->
  Rect.clipSides x y w h x1 y1 dx dy sides s = Ok s.
Proof.
  intros Hord Hhold. induction Hhold as [| side rest [Ha Hb] _ IH];
    intros Hopen.
  - reflexivity.
  - apply Forall_cons_1 in Hopen. destruct Hopen as [Ho Hopen].
    cbn [Rect.clipSides]. unfold sideHolds in Ha, Hb.
    destruct (Rect.sideCoefficients x y w h x1 y1 dx dy side)
      as [[[nx ny] p] q].
    rewrite (clipSide_fixed nx ny p q s Hord Ha Hb Ho). cbn.
    exact (IH Hopen).
Qed.

(** Clipping again with the bounds a clip returned succeeds and returns
    the same bounds, now with both normals (0, 0): the normals are lost
    when the seeds are already tight. *)
Theorem getSegmentIntersectionIndices_again
  (x y w h x1 y1 x2 y2 lo hi : Number) t1 t2 n1x n1y n2x n2y :
  lo <= hi ->
  Rect.getSegmentIntersectionIndices x y w h x1 y1 x2 y2 lo hi
    = Ok (t1, t2, n1x, n1y, n2x, n2y) ->
  Rect.getSegmentIntersectionIndices x y w h x1 y1 x2 y2 t1 t2
    = Ok (t1, t2, 0, 0, 0, 0).
Proof.
  intros Hord Hfirst.
  unfold Rect.getSegmentIntersectionIndices in Hfirst. cbv zeta in Hfirst.
  destruct (Rect.clipSides _ _ _ _ _ _ _ _ _ (Rect.mkClip lo hi 0 0 0 0))
    as [s | e] eqn:Hrun; [| discriminate].
  cbn in Hfirst. injection Hfirst as <- <- <- <- <- <-.
  pose proof (clipSides_parallel_open _ _ _ _ _ _ _ _ _ _ _ Hrun) as Hopen.
  apply clipSides_tightens in Hrun; [| exact Hord].
  destruct Hrun as (_ & H2 & _ & HF).
  unfold Rect.getSegmentIntersectionIndices. cbv zeta.
  rewrite (clipSides_fixed x y w h x1 y1 (x2 - x1) (y2 - y1) Rect.allSides
             (Rect.mkClip (Rect.ti1 s) (Rect.ti2 s) 0 0 0 0));
    [reflexivity | exact H2 | exact HF | exact Hopen].
Qed.

Lemma getSegmentIntersectionIndices_again_witness :
  0 <= 1 /\
  Rect.getSegmentIntersectionIndices 10 (-10) 20 20 0 0 30 0 (10 # 30) 1
    = Ok (10 # 30, 1, 0, 0, 0, 0).
Proof.
  assert (H : 0 <= 1) by (vm_compute; discriminate).
  split; [exact H |].
  apply (getSegmentIntersectionIndices_again
           10 (-10) 20 20 0 0 30 0 0 1 (10 # 30) 1 (-1) 0 0 0 H).
  vm_compute. reflexivity.
Defined.


(** A segment reduced to a point: the clip raises the computation
    error whenever the point is not strictly inside the rectangle (on
    its boundary too), and when it returns it returns the seeds
    untouched, with both normals (0, 0). *)
Theorem getSegmentIntersectionIndices_point
  (x y w h px py lo hi : Number) :
  (~ (x < px /\ px < x + w /\ y < py /\ py < y + h) ->
   Rect.getSegmentIntersectionIndices x y w h px py px py lo hi
     = Throw ComputationError) /\
  (forall r,
     Rect.getSegmentIntersectionIndices x y w h px py px py lo hi = Ok r ->
     r = (lo, hi, 0, 0, 0, 0)).
Proof.
  unfold Rect.getSegmentIntersectionIndices, Rect.allSides, Rect.clipSides,
    Rect.sideCoefficients, Rect.clipSide.
  cbv zeta.
  assert (Ex : px - px == 0) by lra. assert (Ey : py - py == 0) by lra.
  split.
  - intros H.
    repeat (cbn [mbind Result_bind]; case_test; try reflexivity;
            try (exfalso; lra)).
  - intros r.
    repeat (cbn [mbind Result_bind]; case_test; try discriminate;
            try (exfalso; lra)).
    cbn. intros [= <-]. reflexivity.
Qed.

Lemma getSegmentIntersectionIndices_point_witness :
  ~ (0 < 10 /\ 10 < 0 + 10 /\ 0 < 5 /\ 5 < 0 + 10) /\
  Rect.getSegmentIntersectionIndices 0 0 10 10 10 5 10 5 0 1
    = Throw ComputationError /\
  (0, 1, 0, 0, 0, 0) = (0, 1, 0, 0, 0, 0).
Proof.
  assert (Hout : ~ (0 < 10 /\ 10 < 0 + 10 /\ 0 < 5 /\ 5 < 0 + 10))
    by (intros (_ & H & _); vm_compute in H; discriminate).
  split; [exact Hout |].
  split;
    [exact (proj1 (getSegmentIntersectionIndices_point 0 0 10 10 10 5 0 1)
              Hout) |].
  apply (proj2 (getSegmentIntersectionIndices_point 0 0 10 10 5 5 0 1)).
  vm_compute. reflexivity.
Defined.

(** ** More on [detectCollision] *)


Lemma Number_max_pos : 0 < Number_max.
Proof. reflexivity. Qed.

Lemma sign_values (v : Number) :
  Aux.sign v = 0 \/ Aux.sign v = -1 \/ Aux.sign v = 1.
Proof. unfold Aux.sign. destruct (Qltb 0 v), (Qltb v 0); tauto. Qed.



(** The normal of every collision that [detectCollision] returns is
    (0, 0) or has one component equal to -1 or 1 and the other 0. *)
Theorem detectCollision_normal_axis_aligned
  (x1 y1 w1 h1 x2 y2 w2 h2 goalX goalY : Number) col :
  Rect.detectCollision x1 y1 w1 h1 x2 y2 w2 h2 goalX goalY = Ok col ->
  (pt_x (normal col) = 0 /\ pt_y (normal col) = 0) \/
  unitNormal (pt_x (normal col)) (pt_y (normal col)).
Proof.
  unfold Rect.detectCollision, Rect.getDiff.
  set (x := x2 - x1 - w1). set (y := y2 - y1 - h1).
  set (w := w1 + w2). set (h := h1 + h2).
  set (dx := goalX - x1). set (dy := goalY - y1).
  destruct (Rect.containsPoint x y w h 0 0).
  - destruct (Rect.getNearestCorner x y w h 0 0) as [px py].
    cbn [mbind Result_bind].
    destruct (Qeqb dx 0 && Qeqb dy 0).
    + destruct (Qltb (Qabs px) (Qabs py)); cbn [mbind Result_bind];
        intros [= <-]; cbn [normal pt_x pt_y]; unfold unitNormal.
      * change (Aux.sign 0) with 0.
        destruct (sign_values px) as [-> | [-> | ->]]; tauto.
      * change (Aux.sign 0) with 0.
        destruct (sign_values py) as [-> | [-> | ->]]; tauto.
    + destruct (Rect.getSegmentIntersectionIndices x y w h 0 0 dx dy
                  (- Number_max) 1)
        as [[[[[[t1 t2] n1x] n1y] n2x] n2y] | e] eqn:Hrun;
        cbn [mbind Result_bind]; [| discriminate].
      intros [= <-]; cbn [normal pt_x pt_y].
      apply getSegmentIntersectionIndices_normals_aux in Hrun. exact Hrun.
  - destruct (Rect.getSegmentIntersectionIndices x y w h 0 0 dx dy
                (- Number_max) Number_max)
      as [[[[[[t1 t2] n1x] n1y] n2x] n2y] | e] eqn:Hrun;
      cbn [mbind Result_bind]; [| discriminate].
    destruct (_ && _ && _); cbn [mbind Result_bind];
      intros [= <-]; cbn [normal pt_x pt_y].
    + apply getSegmentIntersectionIndices_normals_aux in Hrun. exact Hrun.
    + left. split; reflexivity.
Qed.

Lemma detectCollision_normal_axis_aligned_witness :
  ((-1 = 0 /\ 0 = 0) \/ unitNormal (-1) 0).
Proof.
  apply (detectCollision_normal_axis_aligned 0 0 10 10 20 0 10 10 30 0
           (mkCollision (mkPoint 30 0) (mkPoint (-1) 0)
              (mkPoint (300 # 30) (0 # 30))
              (mkRectangle 0 0 10 10) (mkRectangle 20 0 10 10)
              false (10 # 30) nullptr nullptr (mkPoint 0 0) (mkPoint 0 0))).
  vm_compute. reflexivity.
Defined.

(** A collision returned with [overlaps = false] either reports no
    contact, with the normal (0, 0) and [ti = 0], or a contact: then
    [ti] is above [- deltaError] and the normal is the outward normal
    of a side of the other rectangle that the motion runs into. *)
Theorem detectCollision_without_overlap
  (x1 y1 w1 h1 x2 y2 w2 h2 goalX goalY : Number) col :
  Rect.detectCollision x1 y1 w1 h1 x2 y2 w2 h2 goalX goalY = Ok col ->
  overlaps col = false ->
  (normal col = mkPoint 0 0 /\ ti col = 0) \/
  (unitNormal (pt_x (normal col)) (pt_y (normal col)) /\
   - deltaError < ti col /\
   pt_x (normal col) * (goalX - x1) + pt_y (normal col) * (goalY - y1) < 0).
Proof.
  pose proof Number_max_pos as Hmax.
  unfold Rect.detectCollision, Rect.getDiff.
  set (x := x2 - x1 - w1). set (y := y2 - y1 - h1).
  set (w := w1 + w2). set (h := h1 + h2).
  set (dx := goalX - x1). set (dy := goalY - y1).
  destruct (Rect.containsPoint x y w h 0 0).
  - destruct (Rect.getNearestCorner x y w h 0 0) as [px py].
    cbn [mbind Result_bind].
    destruct (Qeqb dx 0 && Qeqb dy 0).
    + destruct (Qltb (Qabs px) (Qabs py)); cbn [mbind Result_bind];
        intros [= <-]; discriminate.
    + destruct (Rect.getSegmentIntersectionIndices x y w h 0 0 dx dy
                  (- Number_max) 1) as [[[[[[t1 t2] n1x] n1y] n2x] n2y] | e];
        cbn [mbind Result_bind]; [| discriminate].
      intros [= <-]; discriminate.
  - destruct (Rect.getSegmentIntersectionIndices x y w h 0 0 dx dy
                (- Number_max) Number_max)
      as [[[[[[t1 t2] n1x] n1y] n2x] n2y] | e] eqn:Hrun;
      cbn [mbind Result_bind]; [| discriminate].
    destruct (Qltb 0 1 && Qleb deltaError (Qabs (t1 - t2)) &&
              (Qltb 0 (t1 + deltaError) || Qeqb t1 0 && Qltb 0 t2))
      eqn:Hguard; cbn [mbind Result_bind]; intros [= <-];
      cbn [overlaps normal touch ti pt_x pt_y]; intros _.
    + right.
      apply andb_true_iff in Hguard. destruct Hguard as [_ Hguard].
      apply orb_true_iff in Hguard.
      assert (Hti : - deltaError < t1).
      { destruct Hguard as [Hg | Hg].
        - apply Qltb_true in Hg. lra.
        - apply andb_true_iff in Hg. destruct Hg as [Hg _].
          apply Qeqb_true in Hg. pose proof deltaError_pos. lra. }
      apply getSegmentIntersectionIndices_faces in Hrun.
      destruct Hrun as [[(_ & _ & Hseed) | [Hu Hf]] _].
      * exfalso. rewrite Hseed in Hti.
        assert (Hlt : - Number_max < - deltaError) by reflexivity. lra.
      * split; [exact Hu |]. split; [exact Hti | lra].
    + left. split; reflexivity.
Qed.

Lemma detectCollision_without_overlap_witness :
  (mkPoint (-1) 0 = mkPoint 0 0 /\ 10 # 30 = 0) \/
  (unitNormal (-1) 0 /\ - deltaError < 10 # 30 /\
   -1 * (30 - 0) + 0 * (0 - 0) < 0).
Proof.
  apply (detectCollision_without_overlap 0 0 10 10 20 0 10 10 30 0
           (mkCollision (mkPoint 30 0) (mkPoint (-1) 0)
              (mkPoint (300 # 30) (0 # 30))
              (mkRectangle 0 0 10 10) (mkRectangle 20 0 10 10)
              false (10 # 30) nullptr nullptr (mkPoint 0 0) (mkPoint 0 0))).
  - vm_compute. reflexivity.
  - reflexivity.
Defined.



(** Zero motion, the origin not strictly inside the Minkowski
    difference that [getDiff] computes (on its boundary or outside):
    the error of the clip leaves [detectCollision]. *)
Theorem detectCollision_static_outside
  (x1 y1 w1 h1 x2 y2 w2 h2 : Number) :
  let '(x, y, w, h) := Rect.getDiff x1 y1 w1 h1 x2 y2 w2 h2 in
  0 <= x \/ x + w <= 0 \/ 0 <= y \/ y + h <= 0 ->
  Rect.detectCollision x1 y1 w1 h1 x2 y2 w2 h2 x1 y1
    = Throw ComputationError.
Proof.
  unfold Rect.detectCollision, Rect.getDiff. intros H.
  pose proof deltaError_pos as Heps.
  set (x := x2 - x1 - w1) in *. set (y := y2 - y1 - h1) in *.
  set (w := w1 + w2) in *. set (h := h1 + h2) in *.
  assert (Hc : Rect.containsPoint x y w h 0 0 = false).
  { apply not_true_iff_false. unfold Rect.containsPoint. intros Hc.
    bool_to_prop. destruct H as [H | [H | [H | H]]]; lra. }
  rewrite Hc.
  unfold Rect.getSegmentIntersectionIndices. cbv zeta.
  rewrite (clip_parallel_beyond x y w h 0 0 (x1 - x1 - 0) (y1 - y1 - 0)
             (- Number_max) Number_max).
  - reflexivity.
  - destruct H as [H | [H | [H | H]]];
      [left | left | right | right]; (split; [lra |]); tauto.
Qed.

Lemma detectCollision_static_outside_witness :
  (0 <= 20 - 0 - 10 \/ 20 - 0 - 10 + (10 + 10) <= 0 \/
   0 <= 0 - 0 - 10 \/ 0 - 0 - 10 + (10 + 10) <= 0) /\
  Rect.detectCollision 0 0 10 10 20 0 10 10 0 0 = Throw ComputationError.
Proof.
  assert (H : 0 <= 20 - 0 - 10 \/ 20 - 0 - 10 + (10 + 10) <= 0 \/
              0 <= 0 - 0 - 10 \/ 0 - 0 - 10 + (10 + 10) <= 0)
    by (left; vm_compute; discriminate).
  split; [exact H |].
  exact (detectCollision_static_outside 0 0 10 10 20 0 10 10 H).
Defined.

(** What every returned collision records: the motion is the goal minus
    the mover's position, both rectangles are the ones passed in, the
    two item identities are null and the slide and bounce points are
    (0, 0). *)
Lemma detectCollision_records
  (x1 y1 w1 h1 x2 y2 w2 h2 goalX goalY : Number) col :
  Rect.detectCollision x1 y1 w1 h1 x2 y2 w2 h2 goalX goalY = Ok col ->
  move col = mkPoint (goalX - x1) (goalY - y1) /\
  itemRect col = mkRectangle x1 y1 w1 h1 /\
  otherRect col = mkRectangle x2 y2 w2 h2 /\
  item col = nullptr /\ other col = nullptr /\
  slide col = mkPoint 0 0 /\ bounce col = mkPoint 0 0.
Proof.
  unfold Rect.detectCollision, Rect.getDiff.
  set (x := x2 - x1 - w1). set (y := y2 - y1 - h1).
  set (w := w1 + w2). set (h := h1 + h2).
  set (dx := goalX - x1). set (dy := goalY - y1).
  destruct (Rect.containsPoint x y w h 0 0).
  - destruct (Rect.getNearestCorner x y w h 0 0) as [px py].
    cbn [mbind Result_bind].
    destruct (Qeqb dx 0 && Qeqb dy 0).
    + destruct (Qltb (Qabs px) (Qabs py)); cbn [mbind Result_bind];
        intros [= <-]; repeat split.
    + destruct (Rect.getSegmentIntersectionIndices x y w h 0 0 dx dy
                  (- Number_max) 1) as [[[[[[t1 t2] n1x] n1y] n2x] n2y] | e];
        cbn [mbind Result_bind]; [| discriminate].
      intros [= <-]; repeat split.
  - destruct (Rect.getSegmentIntersectionIndices x y w h 0 0 dx dy
                (- Number_max) Number_max)
      as [[[[[[t1 t2] n1x] n1y] n2x] n2y] | e];
      cbn [mbind Result_bind]; [| discriminate].
    destruct (Qltb 0 1 && Qleb deltaError (Qabs (t1 - t2)) &&
              (Qltb 0 (t1 + deltaError) || Qeqb t1 0 && Qltb 0 t2));
      cbn [mbind Result_bind]; intros [= <-]; repeat split.
Qed.

(** ** The grid *)

(** [traverseInitStep] for a positive cell size: the step is the
    direction of the motion along the axis (1, -1 or 0), the parameter
    increment is positive and is the cell size divided by the length of
    the motion, and without motion both parameters are the largest
    number. *)
Theorem traverseInitStep_direction (cellSize ct t1 t2 : Number) :
  0 < cellSize ->
  let '(step, delta, t) := Grid.traverseInitStep cellSize ct t1 t2 in
  (t1 < t2 -> step = 1 /\ 0 < delta /\ delta * (t2 - t1) == cellSize) /\
  (t2 < t1 -> step = -1 /\ 0 < delta /\ delta * (t1 - t2) == cellSize) /\
  (t1 == t2 -> step = 0 /\ delta = Number_max /\ t = Number_max).
Proof.
  intros Hc. unfold Grid.traverseInitStep. cbv zeta.
  destruct (Qltb 0 (t2 - t1)) eqn:Hp; bool_to_prop.
  - assert (Hv : ~ t2 - t1 == 0) by lra.
    split; [| split]; intros H; try (exfalso; lra).
    split; [reflexivity |].
    split; [apply Qlt_shift_div_l; lra | field; exact Hv].
  - destruct (Qltb (t2 - t1) 0) eqn:Hn; bool_to_prop.
    + assert (Hv : ~ t2 - t1 == 0) by lra.
      split; [| split]; intros H; try (exfalso; lra).
      split; [reflexivity |].
      assert (E : - cellSize / (t2 - t1) == cellSize / (t1 - t2))
        by (field; split; lra).
      split; [rewrite E; apply Qlt_shift_div_l; lra |].
      rewrite E. field. lra.
    + split; [| split]; intros H; try (exfalso; lra).
      repeat split.
Qed.

Lemma traverseInitStep_direction_witness :
  0 < 64 /\ 0 < 128 /\
  fst (fst (Grid.traverseInitStep 64 1 0 128)) = 1.
Proof.
  assert (Hc : 0 < 64) by reflexivity.
  assert (Hm : 0 < 128) by reflexivity.
  split; [exact Hc |]. split; [exact Hm |].
  pose proof (traverseInitStep_direction 64 1 0 128 Hc) as T.
  destruct (Grid.traverseInitStep 64 1 0 128) as [[step delta] t].
  exact (proj1 (proj1 T Hm)).
Defined.

(** ** Traversal *)

Lemma traverseStep_last (stepX dx stepY dy : Number) s :
  let '(s', visited) := Grid.traverseStep stepX dx stepY dy s in
  last visited = Some (Grid.tr_cx s', Grid.tr_cy s').
Proof.
  destruct s as [tx ty cx cy]. unfold Grid.traverseStep.
  destruct (Qltb tx ty); [reflexivity |].
  destruct (Qeqb tx ty); reflexivity.
Qed.

(** When the loop finishes, the cell it stands on is within distance 1 of
    the end cell, and it is the last cell visited, if any was. *)
Lemma traverseLoop_finish fuel (stepX dx stepY dy cx2 cy2 : Number) :
  forall s s' visited,
    Grid.traverseLoop fuel stepX dx stepY dy cx2 cy2 s = Some (s', visited) ->
    Grid.traverseFar cx2 cy2 s' = false /\
    (visited = [] /\ s' = s \/
     last visited = Some (Grid.tr_cx s', Grid.tr_cy s')).
Proof.
  induction fuel as [| fuel IH]; intros s s' visited Hrun.
  - cbn in Hrun. destruct (Grid.traverseFar cx2 cy2 s) eqn:Hfar;
      [discriminate |].
    injection Hrun as <- <-. split; [exact Hfar | left; split; reflexivity].
  - cbn [Grid.traverseLoop] in Hrun.
    destruct (Grid.traverseFar cx2 cy2 s) eqn:Hfar.
    + pose proof (traverseStep_last stepX dx stepY dy s) as Hlast.
      destruct (Grid.traverseStep stepX dx stepY dy s) as [s1 v1].
      destruct (Grid.traverseLoop fuel stepX dx stepY dy cx2 cy2 s1)
        as [[s2 rest] |] eqn:Hrest; [| discriminate].
      cbn in Hrun. injection Hrun as <- <-.
      destruct (IH _ _ _ Hrest) as [Hnear [[-> ->] | Hl]].
      * split; [exact Hnear | right]. rewrite app_nil_r. exact Hlast.
      * split; [exact Hnear | right].
        destruct rest as [| c rest]; [discriminate |].
        rewrite last_app. rewrite Hl. reflexivity.
    + injection Hrun as <- <-. split; [exact Hfar | left; split; reflexivity].
Qed.

(** Whenever [traverse] finishes, the first cell it visits is the cell
    of the start point and the last cell it visits is the cell of the
    end point. *)
Theorem traverse_first_and_last fuel (cellSize x1 y1 x2 y2 : Number) visited :
  Grid.traverse fuel cellSize x1 y1 x2 y2 = Some visited ->
  head visited = Some (Grid.toCell cellSize x1 y1) /\
  exists lx ly,
    last visited = Some (lx, ly) /\
    lx == fst (Grid.toCell cellSize x2 y2) /\
    ly == snd (Grid.toCell cellSize x2 y2).
Proof.
  unfold Grid.traverse.
  destruct (Grid.toCell cellSize x1 y1) as [cx1 cy1].
  destruct (Grid.toCell cellSize x2 y2) as [cx2 cy2].
  destruct (Grid.traverseInitStep cellSize cx1 x1 x2) as [[stepX dx] tx].
  destruct (Grid.traverseInitStep cellSize cy1 y1 y2) as [[stepY dy] ty].
  destruct (Grid.traverseLoop fuel stepX dx stepY dy cx2 cy2 _)
    as [[s rest] |] eqn:Hloop; [| discriminate].
  cbn [mbind option_bind]. intros [= <-].
  split; [reflexivity |].
  destruct (traverseLoop_finish _ _ _ _ _ _ _ _ _ _ Hloop) as [_ Hlast].
  cbn [fst snd].
  destruct (negb (Qeqb (Grid.tr_cx s) cx2) || negb (Qeqb (Grid.tr_cy s) cy2))
    eqn:Hend.
  - exists cx2, cy2. split; [| split; reflexivity].
    change ((cx1, cy1) :: rest ++ [(cx2, cy2)])
      with (((cx1, cy1) :: rest) ++ [(cx2, cy2)]).
    apply last_snoc.
  - apply orb_false_iff in Hend. destruct Hend as [Hx Hy].
    apply negb_false_iff in Hx, Hy. bool_to_prop.
    exists (Grid.tr_cx s), (Grid.tr_cy s).
    split; [| split; assumption].
    rewrite app_nil_r.
    destruct Hlast as [[-> ->] | Hl]; [reflexivity |].
    destruct rest as [| c rest]; [discriminate |].
    change ((cx1, cy1) :: c :: rest) with ([(cx1, cy1)] ++ c :: rest).
    rewrite last_app, Hl. reflexivity.
Qed.

Lemma traverse_first_and_last_witness :
  head [(1, 1); (2, 1); (3, 1); (4, 1)] = Some (Grid.toCell 1 0 0) /\
  exists lx ly,
    last [(1, 1); (2, 1); (3, 1); (4, 1)] = Some (lx, ly) /\
    lx == fst (Grid.toCell 1 3 0) /\ ly == snd (Grid.toCell 1 3 0).
Proof.
  apply (traverse_first_and_last 5 1 0 0 3 0). vm_compute. reflexivity.
Defined.



(** ** More on the responses *)

(** With nonzero motion [bounce] reflects, about the touch point, the
    displacement from the touch point to the goal on the axis of the
    normal: for a normal with zero x component the resolved position is
    the touch point plus the displacement with its y negated, otherwise
    plus the displacement with its x negated (each coordinate computed
    as touch + displacement, the kept one too).  The resolved position
    is also the bounce point stored in the collision and the goal of
    the sweep that starts at the touch point. *)
Theorem bounce_reflects_goal (project : ProjectFunction) world col
  (x y w h goalX goalY : Number) filter :
  ~ pt_x (move col) == 0 \/ ~ pt_y (move col) == 0 ->
  let tx := pt_x (touch col) in
  let ty := pt_y (touch col) in
  let '((bx, by_, cols, len), col') :=
    Responses.bounce project world col x y w h goalX goalY filter in
  (pt_x (normal col) == 0 ->
   bx = tx + (goalX - tx) /\ by_ = ty + - (goalY - ty)) /\
  (~ pt_x (normal col) == 0 ->
   bx = tx + - (goalX - tx) /\ by_ = ty + (goalY - ty)) /\
  (cols, len) = project world (item col) tx ty w h bx by_ filter /\
  col' = setBounce col (mkPoint bx by_).
Proof.
  intros Hmove tx ty.
  assert (Hm : negb (Qeqb (pt_x (move col)) 0)
               || negb (Qeqb (pt_y (move col)) 0) = true).
  { apply orb_true_iff.
    destruct Hmove as [H | H]; [left | right];
      apply negb_true_iff, Qeqb_false; exact H. }
  unfold Responses.bounce. cbv zeta. rewrite Hm. fold tx ty.
  destruct (Qeqb (pt_x (normal col)) 0) eqn:Hn; bool_to_prop;
    cbn [item setBounce];
    match goal with
    | |- context [project ?a ?b ?c ?d ?e ?f ?g ?i ?j] =>
        destruct (project a b c d e f g i j) as [cols len] eqn:Hp
    end;
    (split; [intros H; try contradiction; split; reflexivity |]);
    (split; [intros H; try contradiction; split; reflexivity |]);
    (split; [symmetry; exact Hp | reflexivity]).
Qed.

Lemma bounce_reflects_goal_witness :
  (~ 30 == 0 \/ ~ 0 == 0) /\
  fst (fst (fst (fst
    (Responses.bounce World.project (World.new 64)
       (mkCollision (mkPoint 30 0) (mkPoint (-1) 0) (mkPoint 10 0)
          (mkRectangle 0 0 10 10) (mkRectangle 20 0 10 10)
          false (1 # 3) nullptr nullptr (mkPoint 0 0) (mkPoint 0 0))
       0 0 10 10 30 0 (fun _ _ => true))))) = 10 + - (30 - 10).
Proof.
  assert (Hm : ~ 30 == 0 \/ ~ 0 == 0) by (left; discriminate).
  split; [exact Hm |].
  pose proof (bounce_reflects_goal World.project (World.new 64)
                (mkCollision (mkPoint 30 0) (mkPoint (-1) 0) (mkPoint 10 0)
                   (mkRectangle 0 0 10 10) (mkRectangle 20 0 10 10)
                   false (1 # 3) nullptr nullptr (mkPoint 0 0) (mkPoint 0 0))
                0 0 10 10 30 0 (fun _ _ => true) Hm) as T.
  cbv zeta in T.
  destruct (Responses.bounce _ _ _ _ _ _ _ _ _ _)
    as [[[[bx by_] cols] len] col'].
  destruct T as (_ & T & _). cbn [fst].
  apply T. discriminate.
Defined.

(** Without motion [slide] and [bounce] stay at the touch point: it is
    the resolved position, the point stored in the collision, and both
    ends of the sweep asked of [project]. *)
Theorem slide_bounce_without_motion (project : ProjectFunction) world col
  (x y w h goalX goalY : Number) filter :
  pt_x (move col) == 0 -> pt_y (move col) == 0 ->
  let tx := pt_x (touch col) in
  let ty := pt_y (touch col) in
  Responses.slide project world col x y w h goalX goalY filter
  = ((tx, ty,
      fst (project world (item col) tx ty w h tx ty filter),
      snd (project world (item col) tx ty w h tx ty filter)),
     setSlide col (mkPoint tx ty)) /\
  Responses.bounce project world col x y w h goalX goalY filter
  = ((tx, ty,
      fst (project world (item col) tx ty w h tx ty filter),
      snd (project world (item col) tx ty w h tx ty filter)),
     setBounce col (mkPoint tx ty)).
Proof.
  intros Hx Hy tx ty.
  apply Qeqb_true in Hx, Hy.
  unfold Responses.slide, Responses.bounce. cbv zeta.
  rewrite Hx, Hy. cbn [negb orb item setSlide setBounce]. fold tx ty.
  destruct (project world (item col) tx ty w h tx ty filter).
  split; reflexivity.
Qed.

Lemma slide_bounce_without_motion_witness :
  0 == 0 /\
  fst (Responses.slide World.project (World.new 64)
         (mkCollision (mkPoint 0 0) (mkPoint 1 0) (mkPoint 10 4)
            (mkRectangle 7 4 2 2) (mkRectangle 0 0 10 10)
            true (-4) nullptr nullptr (mkPoint 0 0) (mkPoint 0 0))
         7 4 2 2 7 4 (fun _ _ => true))
  = (10, 4, [], 0%N).
Proof.
  assert (H : 0 == 0) by reflexivity.
  split; [exact H |].
  rewrite (proj1 (slide_bounce_without_motion World.project (World.new 64)
                    (mkCollision (mkPoint 0 0) (mkPoint 1 0) (mkPoint 10 4)
                       (mkRectangle 7 4 2 2) (mkRectangle 0 0 10 10)
                       true (-4) nullptr nullptr (mkPoint 0 0) (mkPoint 0 0))
                    7 4 2 2 7 4 (fun _ _ => true) H H)).
  reflexivity.
Defined.

(** ** The table of responses *)

(** A handler registered under a name is the one looked up under that
    name afterwards, replacing any earlier one; the lookup of every
    other name is as before. *)
Theorem addResponse_then_get (responses : gmap string ResponseFunction)
  (name name' : string) (handler : ResponseFunction) :
  Registry.getResponseByName
    (Registry.addResponse responses name handler) name = Ok handler /\
  (name <> name' ->
   Registry.getResponseByName
     (Registry.addResponse responses name handler) name'
   = Registry.getResponseByName responses name').
Proof.
  unfold Registry.getResponseByName, Registry.addResponse. split.
  - rewrite lookup_insert_eq. reflexivity.
  - intros Hne. rewrite lookup_insert_ne by exact Hne. reflexivity.
Qed.

Lemma addResponse_then_get_witness :
  "slide"%string <> "glide"%string /\
  Registry.getResponseByName
    (Registry.addResponse Registry.initial "slide" Responses.touch) "glide"
  = Throw NotFoundError.
Proof.
  assert (H : "slide"%string <> "glide"%string) by discriminate.
  split; [exact H |].
  rewrite (proj2 (addResponse_then_get Registry.initial "slide" "glide"
                    Responses.touch) H).
  reflexivity.
Defined.

(** The constructor registers exactly the four built-in responses: each
    of the names touch, cross, slide and bounce yields its function, and
    every other name raises the not-found error. *)
Theorem initial_responses (name : string) :
  Registry.getResponseByName Registry.initial "touch" = Ok Responses.touch /\
  Registry.getResponseByName Registry.initial "cross"
    = Ok (Responses.cross World.project) /\
  Registry.getResponseByName Registry.initial "slide"
    = Ok (Responses.slide World.project) /\
  Registry.getResponseByName Registry.initial "bounce"
    = Ok (Responses.bounce World.project) /\
  (name <> "touch"%string -> name <> "cross"%string ->
   name <> "slide"%string -> name <> "bounce"%string ->
   Registry.getResponseByName Registry.initial name = Throw NotFoundError).
Proof.
  unfold Registry.getResponseByName, Registry.initial, Registry.addResponse.
  cbv zeta.
  repeat split; try reflexivity.
  intros H1 H2 H3 H4.
  rewrite !lookup_insert_ne by congruence.
  rewrite lookup_empty. reflexivity.
Qed.

Lemma initial_responses_witness :
  Registry.getResponseByName Registry.initial "stop" = Throw NotFoundError.
Proof.
  apply (initial_responses "stop"); discriminate.
Defined.

(** ** More on the cell index *)

Lemma growTo_lookup_old {A : Type} (n : nat) (d : A) (v : list A) i a :
  v !! i = Some a -> World.growTo n d v !! i = Some a.
Proof.
  intros Hv. unfold World.growTo.
  destruct (Nat.ltb_spec (length v) n) as [Hlt | Hge]; [| exact Hv].
  pose proof (lookup_lt_Some _ _ _ Hv) as Hi.
  rewrite lookup_resize by lia. exact Hv.
Qed.

Lemma growTo_enough {A : Type} (n : nat) (d : A) (v : list A) :
  (n <= length v)%nat -> World.growTo n d v = v.
Proof.
  intros Hn. unfold World.growTo.
  destruct (Nat.ltb_spec (length v) n); [lia | reflexivity].
Qed.

(** [addItemToCell] leaves the grid's contents alone: every cell that
    existed keeps its contents, the cell size and the rectangles stay,
    and the rows only grow. *)
Theorem addItemToCell_frame
  (world world' : World.t) (item : Item) (cx cy : Number) :
  World.addItemToCell world item cx cy = Some world' ->
  (forall iy ix cell,
      World.cellAt world iy ix = Some cell ->
      World.cellAt world' iy ix = Some cell) /\
  World.cellSize world' = World.cellSize world /\
  World.rects world' = World.rects world /\
  (length (World.rows world) <= length (World.rows world'))%nat.
Proof.
  unfold World.addItemToCell.
  destruct (World.toIndex cx) as [zx |] eqn:Hx; [| discriminate].
  destruct (World.toIndex cy) as [zy |] eqn:Hy; [| discriminate].
  cbn [mbind option_bind].
  destruct (Z.ltb_spec zx 0); [discriminate |].
  destruct (Z.ltb_spec zy 0); [discriminate |].
  cbn [orb].
  destruct (_ || _)%bool; [discriminate |].
  intros [= <-].
  set (iy0 := Z.to_nat zy). set (ix0 := Z.to_nat zx).
  cbn [World.nonEmptyCells World.cellSize World.rects World.rows].
  pose proof (growTo_length (iy0 + 1) [] (World.rows world)) as Hlen.
  split; [| split; [| split]]; try reflexivity.
  - intros iy ix cell. unfold World.cellAt. cbn [World.rows].
    destruct (World.rows world !! iy) as [row |] eqn:Hrow;
      [| discriminate].
    cbn [mbind option_bind]. intros Hcell.
    destruct (decide (iy = iy0)) as [-> | Hne].
    + rewrite list_lookup_insert_eq by lia. cbn [mbind option_bind].
      rewrite (growTo_lookup_old _ _ _ _ _ Hrow). cbn [default].
      apply growTo_lookup_old. exact Hcell.
    + rewrite list_lookup_insert_ne by congruence.
      rewrite (growTo_lookup_old _ _ _ _ _ Hrow). exact Hcell.
  - rewrite length_insert.
    unfold World.growTo.
    destruct (Nat.ltb_spec (length (World.rows world)) (iy0 + 1));
      [rewrite length_resize |]; lia.
Qed.

Lemma addItemToCell_frame_witness :
  exists world1 world2,
    World.addItemToCell (World.new 64) 7%N 1 0 = Some world1 /\
    World.addItemToCell world1 8%N 0 2 = Some world2 /\
    World.cellAt world2 0 1 = Some Cell_default /\
    (length (World.rows world1) <= length (World.rows world2))%nat.
Proof.
  assert (H1 : World.addItemToCell (World.new 64) 7%N 1 0
               = Some (World.mk 64 [[Cell_default; Cell_default]] []
                         (<[(0%nat, 1%nat) := true]> ∅))) by reflexivity.
  eexists _, _. split; [exact H1 |].
  assert (H2 : World.addItemToCell
                 (World.mk 64 [[Cell_default; Cell_default]] []
                    (<[(0%nat, 1%nat) := true]> ∅)) 8%N 0 2
               = Some (World.mk 64
                         [[Cell_default; Cell_default]; []; [Cell_default]]
                         []
                         (<[(2%nat, 0%nat) := true]>
                            (<[(0%nat, 1%nat) := true]> ∅))))
    by reflexivity.
  split; [exact H2 |].
  destruct (addItemToCell_frame _ _ _ _ _ H2) as (Hcells & _ & _ & Hlen).
  split.
  - apply Hcells. reflexivity.
  - exact Hlen.
Defined.

(** Adding to the same cell a second time, with any item, changes
    nothing. *)
Theorem addItemToCell_again
  (world world' : World.t) (item item' : Item) (cx cy : Number) :
  World.addItemToCell world item cx cy = Some world' ->
  World.addItemToCell world' item' cx cy = Some world'.
Proof.
  unfold World.addItemToCell.
  destruct (World.toIndex cx) as [zx |] eqn:Hx; [| discriminate].
  destruct (World.toIndex cy) as [zy |] eqn:Hy; [| discriminate].
  cbn [mbind option_bind].
  destruct (_ || _ || _ || _)%bool; [discriminate |].
  intros [= <-].
  set (iy := Z.to_nat zy). set (ix := Z.to_nat zx).
  cbn [World.nonEmptyCells World.cellSize World.rects World.rows].
  pose proof (growTo_length (iy + 1) [] (World.rows world)) as Hlen.
  set (rows1 := World.growTo (iy + 1) [] (World.rows world)) in *.
  set (row1 := World.growTo (ix + 1) Cell_default (default [] (rows1 !! iy))).
  pose proof (growTo_length (ix + 1) Cell_default (default [] (rows1 !! iy)))
    as Hrow. fold row1 in Hrow.
  assert (Hat : <[iy := row1]> rows1 !! iy = Some row1)
    by (apply list_lookup_insert_eq; lia).
  rewrite (growTo_enough (iy + 1) [] (<[iy := row1]> rows1))
    by (rewrite length_insert; lia).
  rewrite Hat. cbn [default]. unfold id.
  rewrite (growTo_enough (ix + 1) Cell_default row1) by lia.
  rewrite list_insert_insert_eq, insert_insert_eq.
  reflexivity.
Qed.

Lemma addItemToCell_again_witness :
  World.addItemToCell
    (World.mk 64 [[Cell_default; Cell_default]] []
       (<[(0%nat, 1%nat) := true]> ∅)) 9%N 1 0
  = Some (World.mk 64 [[Cell_default; Cell_default]] []
            (<[(0%nat, 1%nat) := true]> ∅)).
Proof.
  apply (addItemToCell_again (World.new 64) _ 7%N 9%N 1 0).
  reflexivity.
Defined.

Lemma quot_range (n d M : Z) :
  (0 < d)%Z -> (0 < M)%Z ->
  ((0 <= n ÷ d < M)%Z <-> (- d < n < M * d)%Z).
Proof.
  intros Hd HM.
  pose proof (Z.quot_rem' n d) as E.
  destruct (Z_lt_le_dec n 0) as [Hn | Hn].
  - assert (B : (- d < Z.rem n d <= 0)%Z).
    { pose proof (Z.rem_bound_pos (- n) d ltac:(lia) Hd) as B.
      rewrite Z.rem_opp_l in B by lia. lia. }
    split; intros H; nia.
  - pose proof (Z.rem_bound_pos n d Hn Hd) as B.
    split; intros H; nia.
Qed.

(** The index conversion succeeds with a usable index exactly for the
    numbers strictly between -1 and 2^31 - 1. *)
Lemma toIndex_usable (v : Number) :
  (exists i, World.toIndex v = Some i /\ (0 <= i < 2 ^ 31 - 1)%Z)
  <-> (-1 < v /\ v < inject_Z (2 ^ 31 - 1)).
Proof.
  destruct v as [n d]. unfold World.toIndex. cbn [Qnum Qden].
  pose proof (quot_range n (Z.pos d) (2 ^ 31 - 1) ltac:(lia) ltac:(lia))
    as Hq.
  unfold Qlt. cbn [Qnum Qden inject_Z].
  split.
  - intros (i & Hi & Hr).
    destruct ((- 2 ^ 31 <=? n ÷ Z.pos d) && (n ÷ Z.pos d <? 2 ^ 31))%Z;
      [| discriminate].
    injection Hi as <-. apply Hq in Hr. lia.
  - intros Hv.
    assert (Hr : (0 <= n ÷ Z.pos d < 2 ^ 31 - 1)%Z) by (apply Hq; lia).
    exists (n ÷ Z.pos d)%Z. split; [| exact Hr].
    destruct (Z.leb_spec (- 2 ^ 31) (n ÷ Z.pos d));
      destruct (Z.ltb_spec (n ÷ Z.pos d) (2 ^ 31)); try lia.
    reflexivity.
Qed.

(** [addItemToCell] is defined exactly when both cell coordinates lie
    strictly between -1 and 2^31 - 1; outside that range the index
    conversion, the index or the new size is out of range. *)
Theorem addItemToCell_defined_iff
  (world : World.t) (item : Item) (cx cy : Number) :
  is_Some (World.addItemToCell world item cx cy)
  <-> (-1 < cx /\ cx < inject_Z (2 ^ 31 - 1)) /\
      (-1 < cy /\ cy < inject_Z (2 ^ 31 - 1)).
Proof.
  rewrite <- (toIndex_usable cx), <- (toIndex_usable cy).
  unfold World.addItemToCell.
  split.
  - intros [world' Hrun].
    destruct (World.toIndex cx) as [zx |]; [| discriminate].
    destruct (World.toIndex cy) as [zy |]; [| discriminate].
    cbn [mbind option_bind] in Hrun.
    destruct (Z.ltb_spec zx 0); [discriminate |].
    destruct (Z.ltb_spec zy 0); [discriminate |].
    destruct (Z.leb_spec (2 ^ 31 - 1) zx); [discriminate |].
    destruct (Z.leb_spec (2 ^ 31 - 1) zy); [discriminate |].
    split; eexists; (split; [reflexivity | lia]).
  - intros [(zx & -> & Hx) (zy & -> & Hy)].
    cbn [mbind option_bind].
    destruct (Z.ltb_spec zx 0); [lia |].
    destruct (Z.ltb_spec zy 0); [lia |].
    destruct (Z.leb_spec (2 ^ 31 - 1) zx); [lia |].
    destruct (Z.leb_spec (2 ^ 31 - 1) zy); [lia |].
    cbn [orb]. eexists. reflexivity.
Qed.

(** ** The sort predicates *)

(** [sortByWeight] is a strict order: irreflexive, asymmetric and
    transitive. *)
Lemma sortByWeight_strict_order (a b c : World.ItemInfo) :
  World.sortByWeight a a = false /\
  (World.sortByWeight a b = true -> World.sortByWeight b a = false) /\
  (World.sortByWeight a b = true -> World.sortByWeight b c = true ->
   World.sortByWeight a c = true).
Proof.
  unfold World.sortByWeight.
  rewrite !Qltb_true, !Qltb_false. repeat split; intros; lra.
Qed.

(** The sort key of [sortByTiAndDistance]: [ti] first, then the squared
    distance from the mover's rectangle [ir] to the other rectangle. *)
Lemma sortByTiAndDistance_key (a b : Collision) :
  let dist c :=
    Rect.getSquareDistance
      (rect_x (itemRect a)) (rect_y (itemRect a))
      (rect_w (itemRect a)) (rect_h (itemRect a))
      (rect_x (otherRect c)) (rect_y (otherRect c))
      (rect_w (otherRect c)) (rect_h (otherRect c)) in
  World.sortByTiAndDistance a b = true
  <-> (ti a < ti b \/ (ti a == ti b /\ dist a < dist b)).
Proof.
  cbv zeta. unfold World.sortByTiAndDistance. cbv zeta.
  destruct (Qeqb (ti a) (ti b)) eqn:E; bool_to_prop; rewrite Qltb_true.
  - split; [intros H; right; split; assumption |].
    intros [H | [_ H]]; [lra | exact H].
  - split; [intros H; left; exact H |].
    intros [H | [H _]]; [exact H | contradiction].
Qed.

Lemma key_incomparable (p q d e : Number) :
  ~ (p < q \/ (p == q /\ d < e)) ->
  ~ (q < p \/ (q == p /\ e < d)) ->
  p == q /\ d == e.
Proof.
  intros N1 N2.
  assert (Hpq : p == q).
  { destruct (Q_dec p q) as [[H | H] | H]; [| | exact H]; exfalso; tauto. }
  split; [exact Hpq |].
  destruct (Q_dec d e) as [[H | H] | H]; [| | exact H]; exfalso.
  - apply N1. right. split; assumption.
  - apply N2. right. split; [lra | assumption].
Qed.

(** For collisions of one mover (the same [itemRect])
    [sortByTiAndDistance] is a strict weak order, as sorting needs:
    irreflexive, asymmetric, transitive, with a transitive
    incomparability; and it never puts a larger [ti] first. *)
Theorem sortByTiAndDistance_strict_weak_order (a b c : Collision) :
  itemRect a = itemRect b -> itemRect b = itemRect c ->
  World.sortByTiAndDistance a a = false /\
  (World.sortByTiAndDistance a b = true ->
   World.sortByTiAndDistance b a = false) /\
  (World.sortByTiAndDistance a b = true ->
   World.sortByTiAndDistance b c = true ->
   World.sortByTiAndDistance a c = true) /\
  (World.sortByTiAndDistance a b = false ->
   World.sortByTiAndDistance b a = false ->
   World.sortByTiAndDistance b c = false ->
   World.sortByTiAndDistance c b = false ->
   World.sortByTiAndDistance a c = false /\
   World.sortByTiAndDistance c a = false) /\
  (World.sortByTiAndDistance a b = true -> ti a <= ti b).
Proof.
  intros Hab Hbc.
  pose proof (sortByTiAndDistance_key a a) as Kaa.
  pose proof (sortByTiAndDistance_key a b) as Kab.
  pose proof (sortByTiAndDistance_key b a) as Kba.
  pose proof (sortByTiAndDistance_key b c) as Kbc.
  pose proof (sortByTiAndDistance_key c b) as Kcb.
  pose proof (sortByTiAndDistance_key a c) as Kac.
  pose proof (sortByTiAndDistance_key c a) as Kca.
  cbv beta zeta in *.
  rewrite <- Hbc, <- Hab in *.
  set (ir := itemRect a) in *.
  set (da := Rect.getSquareDistance _ _ _ _
               (rect_x (otherRect a)) _ _ _) in *.
  set (db := Rect.getSquareDistance _ _ _ _
               (rect_x (otherRect b)) _ _ _) in *.
  set (dc := Rect.getSquareDistance _ _ _ _
               (rect_x (otherRect c)) _ _ _) in *.
  clearbody da db dc.
  assert (F : forall u v : Collision,
             World.sortByTiAndDistance u v = false
             <-> ~ World.sortByTiAndDistance u v = true)
    by (intros u v; destruct (World.sortByTiAndDistance u v);
        split; congruence).
  rewrite !F, Kaa, Kab, Kba, Kbc, Kcb, Kac, Kca.
  split; [| split; [| split; [| split]]].
  - intros [H | [_ H]]; lra.
  - intros [H | [H1 H2]] [H' | [H1' H2']]; lra.
  - intros [H | [H1 H2]] [H' | [H1' H2']];
      [left | left | left | right; split]; lra.
  - intros N1 N2 N3 N4.
    destruct (key_incomparable _ _ _ _ N1 N2) as [E1 E2].
    destruct (key_incomparable _ _ _ _ N3 N4) as [E3 E4].
    split; intros [H | [H1 H2]]; lra.
  - intros [H | [H1 H2]]; lra.
Qed.

Lemma sortByTiAndDistance_strict_weak_order_witness :
  let mover := mkRectangle 0 0 10 10 in
  let near :=
    mkCollision (mkPoint 30 0) (mkPoint (-1) 0) (mkPoint 10 0)
      mover (mkRectangle 20 0 10 10) false (1 # 3) nullptr nullptr
      (mkPoint 0 0) (mkPoint 0 0) in
  let far :=
    mkCollision (mkPoint 30 0) (mkPoint (-1) 0) (mkPoint 10 0)
      mover (mkRectangle 20 5 10 10) false (1 # 3) nullptr nullptr
      (mkPoint 0 0) (mkPoint 0 0) in
  World.sortByTiAndDistance near far = true /\
  World.sortByTiAndDistance far near = false.
Proof.
  intros mover near far.
  assert (H : World.sortByTiAndDistance near far = true)
    by (vm_compute; reflexivity).
  split; [exact H |].
  exact (proj1 (proj2 (sortByTiAndDistance_strict_weak_order near far far
                         eq_refl eq_refl)) H).
Defined.

(** ** Distances, intersection and containment *)

Lemma square_nonneg (a : Number) : 0 <= a * a.
Proof.
  destruct (Qlt_le_dec a 0) as [H | H].
  - assert (E : a * a == (- a) * (- a)) by ring.
    rewrite E. apply Qmult_le_0_compat; lra.
  - apply Qmult_le_0_compat; lra.
Qed.

(** [getSquareDistance] is the squared distance between the centres of
    the two rectangles; it is never negative and does not depend on the
    order of the rectangles. *)
Theorem getSquareDistance_centres (x1 y1 w1 h1 x2 y2 w2 h2 : Number) :
  let cx1 := x1 + w1 / 2 in let cy1 := y1 + h1 / 2 in
  let cx2 := x2 + w2 / 2 in let cy2 := y2 + h2 / 2 in
  Rect.getSquareDistance x1 y1 w1 h1 x2 y2 w2 h2
    == (cx1 - cx2) * (cx1 - cx2) + (cy1 - cy2) * (cy1 - cy2) /\
  0 <= Rect.getSquareDistance x1 y1 w1 h1 x2 y2 w2 h2 /\
  Rect.getSquareDistance x1 y1 w1 h1 x2 y2 w2 h2
    == Rect.getSquareDistance x2 y2 w2 h2 x1 y1 w1 h1.
Proof.
  unfold Rect.getSquareDistance. cbv zeta.
  split; [field |]. split; [| field].
  pose proof (square_nonneg (x1 - x2 + (w1 - w2) / 2)).
  pose proof (square_nonneg (y1 - y2 + (h1 - h2) / 2)).
  lra.
Qed.

(** [isIntersecting] does not depend on the order of the rectangles. *)
Theorem isIntersecting_symmetric (x1 y1 w1 h1 x2 y2 w2 h2 : Number) :
  Rect.isIntersecting x1 y1 w1 h1 x2 y2 w2 h2
  = Rect.isIntersecting x2 y2 w2 h2 x1 y1 w1 h1.
Proof.
  unfold Rect.isIntersecting.
  destruct (Qltb x1 (x2 + w2)), (Qltb x2 (x1 + w1)),
    (Qltb y1 (y2 + h2)), (Qltb y2 (y1 + h1)); reflexivity.
Qed.

(** A point that [containsPoint] accepts lies strictly inside the
    rectangle, off its boundary; so a rectangle of zero or negative
    width or height contains no point. *)
Theorem containsPoint_strictly_inside (x y w h px py : Number) :
  Rect.containsPoint x y w h px py = true ->
  (x < px /\ px < x + w /\ y < py /\ py < y + h) /\ 0 < w /\ 0 < h.
Proof.
  pose proof deltaError_pos as Heps.
  unfold Rect.containsPoint. intros H. bool_to_prop.
  repeat split; lra.
Qed.

Lemma containsPoint_strictly_inside_witness :
  (0 < 5 /\ 5 < 0 + 10 /\ 0 < 5 /\ 5 < 0 + 10) /\ 0 < 10 /\ 0 < 10.
Proof.
  apply (containsPoint_strictly_inside 0 0 10 10 5 5). reflexivity.
Defined.

(** [sign] returns -1, 0 or 1, and the value is its sign times its
    absolute value. *)
Theorem sign_spec (value : Number) :
  (Aux.sign value = 1 /\ 0 < value \/
   Aux.sign value = -1 /\ value < 0 \/
   Aux.sign value = 0 /\ value == 0) /\
  Aux.sign value * Qabs value == value.
Proof.
  unfold Aux.sign.
  destruct (Qltb 0 value) eqn:Hp; bool_to_prop.
  - split; [left; split; [reflexivity | exact Hp] |].
    rewrite Qabs_pos by lra. lra.
  - destruct (Qltb value 0) eqn:Hn; bool_to_prop.
    + split; [right; left; split; [reflexivity | exact Hn] |].
      rewrite Qabs_neg by lra. lra.
    + split; [right; right; split; [reflexivity | lra] |].
      rewrite Qabs_pos by lra. lra.
Qed.

(** * The margin test and the nearest corner, as the doubles compute them *)

Section Binary64.

Import PrimFloat.
#[local] Open Scope float_scope.

(** Doubles that compare equal are not strictly ordered. *)
Lemma eqb_not_ltb (a b : float) : (a =? b) = true -> (a <? b) = false.
Proof.
  rewrite FloatAxioms.eqb_spec, FloatAxioms.ltb_spec.
  unfold SpecFloat.SFltb, SpecFloat.SFeqb.
  destruct (SpecFloat.SFcompare _ _) as [[| |] |]; congruence.
Qed.


(** C9 (as the code has it): [getNearestCorner] picks, independently on
    each axis, between [x] and [x + w] for [px] and between [y] and
    [y + h] for [py], by the distances the code computes in doubles,
    [|x - px|] against [|(x + w) - px|]: it returns the first candidate
    when its computed distance is strictly the smaller one, and the
    second candidate ([x + w], [y + h]) whenever it is not, so also
    when the two computed distances are equal. *)
Theorem getNearestCorner_nearest_ties_to_second (x y w h px py : float) :
  let '(cx, cy) := Double.Rect.getNearestCorner x y w h px py in
  ((abs (x - px) <? abs (x + w - px)) = true -> cx = x) /\
  ((abs (x - px) <? abs (x + w - px)) = false -> cx = x + w) /\
  ((abs (x - px) =? abs (x + w - px)) = true -> cx = x + w) /\
  ((abs (y - py) <? abs (y + h - py)) = true -> cy = y) /\
  ((abs (y - py) <? abs (y + h - py)) = false -> cy = y + h) /\
  ((abs (y - py) =? abs (y + h - py)) = true -> cy = y + h).
Proof.
  unfold Double.Rect.getNearestCorner, Double.Aux.nearest.
  repeat split; intros H; try apply eqb_not_ltb in H;
    rewrite H; reflexivity.
Qed.

Lemma getNearestCorner_nearest_ties_to_second_witness :
  (abs (0 - 5) =? abs (0 + 10 - 5)) = true /\
  fst (Double.Rect.getNearestCorner 0 0 10 10 5 5) = 0 + 10.
Proof.
  assert (H : (abs (0 - 5) =? abs (0 + 10 - 5)) = true) by reflexivity.
  split; [exact H |].
  pose proof (getNearestCorner_nearest_ties_to_second 0 0 10 10 5 5) as T.
  destruct (Double.Rect.getNearestCorner 0 0 10 10 5 5) as [cx cy].
  destruct T as (_ & _ & T & _). exact (T H).
Defined.

(** Two ties.  The point (5, 5) is at distance 5 from both candidates
    on each axis of (0, 0, 10, 10), the computed distances are equal
    and the corner is (10, 10).  The point 0.2 is at the same distance,
    0.1, from the two candidates 0.1 and 0.1 + 0.2 of the rectangle
    (0.1, 0, 0.2, 1) when the doubles are taken for what they are worth,
    but the sum 0.1 + 0.2 is rounded upwards, the second computed
    distance is the larger one, and the corner returned has the first
    candidate, 0.1, as its x. *)
Lemma getNearestCorner_ties_in_doubles :
  (abs (0 - 5) =? abs (0 + 10 - 5)) = true /\
  Double.Rect.getNearestCorner 0 0 10 10 5 5 = (10, 10) /\
  let x := 0x1.999999999999ap-4 in
  let w := 0x1.999999999999ap-3 in
  (Qabs (Double.exact x - Double.exact w)
   == Qabs (Double.exact x + Double.exact w - Double.exact w))%Q /\
  (abs (x - w) <? abs (x + w - w)) = true /\
  Double.Rect.getNearestCorner x 0 w 1 w 0.5 = (x, 1).
Proof. repeat split. Qed.




End Binary64.
